(** * hashvatar: a shallow embedding of the generation pipeline

    The development follows the TypeScript sources:
    - [hash.ts]     FNV-1a, Mulberry32 and [hashToSeeds];
    - [color.ts]    sRGB/OKLCH conversions, [parseTone], [generateColor];
    - [index.ts]    [hashToColors], [createHashvatar], [renderHashvatar];
    - [gradient.ts] the layered renderer [renderGradient];
    - [dither.ts]   the ordered-dither renderer [renderDither].

    A JavaScript [number] is an IEEE 754 binary64 value.  It is modelled by
    the Standard Library's [spec_float] at precision 53 and maximal exponent
    1024, whose operations are the correctly rounded ones.  Values that the
    code keeps in integer range (the 32-bit hash state, loop counters, pixel
    coordinates and buffer indices, all below 2^53 where a double is exact,
    and bytes) are carried as [Z], with the wrap-around written out where
    the code wraps. *)

From Stdlib Require Import ZArith List Lia Bool Ascii String.
From Stdlib Require Import Floats.SpecFloat.
From stdpp Require Import base option list list_numbers.
Import ListNotations.

Local Open Scope Z_scope.

(** ** IEEE 754 binary64 numbers *)

Module Num.

Abbreviation number := spec_float.

Definition prec : Z := 53.
Definition emax : Z := 1024.

Definition nan : number := S754_nan.
Definition pzero : number := S754_zero false.
Definition nzero : number := S754_zero true.
Definition pinf : number := S754_infinity false.

(** The double nearest to an integer (exact below 2^53). *)
Definition ofZ (z : Z) : number := binary_normalize prec emax z 0 false.

(** The double nearest to the rational [a / b], [b > 0]: the quotient is
    rounded once, whatever the size of [a] and [b]. *)
Definition ratio (a : Z) (b : positive) : number :=
  match a with
  | Z0 => pzero
  | Zpos p => SFdiv prec emax (S754_finite false p 0) (S754_finite false b 0)
  | Zneg p => SFdiv prec emax (S754_finite true p 0) (S754_finite false b 0)
  end.

Definition add : number -> number -> number := SFadd prec emax.
Definition sub : number -> number -> number := SFsub prec emax.
Definition mul : number -> number -> number := SFmul prec emax.
Definition div : number -> number -> number := SFdiv prec emax.
Definition sqrt : number -> number := SFsqrt prec emax.
Definition neg : number -> number := SFopp.

Definition ltb : number -> number -> bool := SFltb.
Definition leb : number -> number -> bool := SFleb.
Definition eqb : number -> number -> bool := SFeqb.
Definition gtb (x y : number) : bool := SFltb y x.
Definition geb (x y : number) : bool := SFleb y x.

Definition isNaN (x : number) : bool :=
  match x with S754_nan => true | _ => false end.

Definition isFinite (x : number) : bool :=
  match x with S754_zero _ | S754_finite _ _ _ => true | _ => false end.

Definition signbit (x : number) : bool :=
  match x with
  | S754_zero s | S754_infinity s | S754_finite s _ _ => s
  | S754_nan => false
  end.

(** A finite value as a scaled integer: [x = m * 2^e]. *)
Definition scaled (x : number) : Z * Z :=
  match x with
  | S754_finite s m e => (if s then Zneg m else Zpos m, e)
  | _ => (0, 0)
  end.

(** [Math.floor], [Math.ceil], [Math.round] and truncation, as integers.
    On [Z], [Z.shiftl m e] with [e < 0] is the floor of [m / 2^-e]. *)
Definition floorZ (x : number) : Z := let '(m, e) := scaled x in Z.shiftl m e.
Definition ceilZ (x : number) : Z := let '(m, e) := scaled x in - Z.shiftl (- m) e.
Definition truncZ (x : number) : Z :=
  let '(m, e) := scaled x in Z.sgn m * Z.shiftl (Z.abs m) e.
(** Ties go towards +infinity: [floor (x + 1/2)] computed exactly. *)
Definition roundZ (x : number) : Z :=
  let '(m, e) := scaled x in
  if 0 <=? e then Z.shiftl m e else Z.shiftl (m + Z.shiftl 1 (- e - 1)) e.

(** An integer result keeps the sign of a zero the way ECMAScript says. *)
Definition integral (f : number -> Z) (negzero : bool) (x : number) : number :=
  match x with
  | S754_finite _ _ _ =>
      match f x with
      | Z0 => S754_zero negzero
      | z => ofZ z
      end
  | _ => x
  end.

Definition floor (x : number) : number := integral floorZ false x.
Definition ceil (x : number) : number := integral ceilZ (signbit x) x.
Definition round (x : number) : number := integral roundZ (signbit x) x.

(** [Math.min] and [Math.max] of two arguments: NaN is contagious and
    -0 is below +0. *)
Definition min (x y : number) : number :=
  if isNaN x || isNaN y then nan
  else if ltb x y then x
  else if ltb y x then y
  else if signbit x then x else y.

Definition max (x y : number) : number :=
  if isNaN x || isNaN y then nan
  else if ltb x y then y
  else if ltb y x then x
  else if signbit x then y else x.

(** The remainder operator [%]: exact, with the sign of the dividend. *)
Definition rem (x y : number) : number :=
  match x, y with
  | S754_nan, _ | _, S754_nan => nan
  | S754_infinity _, _ => nan
  | _, S754_zero _ => nan
  | _, S754_infinity _ => x
  | S754_zero _, _ => x
  | S754_finite sx mx ex, S754_finite _ my ey =>
      let e := Z.min ex ey in
      let r := Z.rem (Z.shiftl (Zpos mx) (ex - e)) (Z.shiftl (Zpos my) (ey - e)) in
      match r with
      | Z0 => S754_zero sx
      | _ => binary_normalize prec emax (if sx then - r else r) e false
      end
  end.

(** ToInt32 and ToUint32 of ECMAScript; NaN and the infinities give 0. *)
Definition toUint32 (x : number) : Z := truncZ x mod 2 ^ 32.
Definition toInt32 (x : number) : Z :=
  let u := toUint32 x in if u <? 2 ^ 31 then u else u - 2 ^ 32.

(** Decimal literals of the sources, read as the parser of a JavaScript
    engine reads them: the nearest double. *)
Definition of_decimal (i : Decimal.int) (f : Decimal.uint) (e : Z) : number :=
  let k := Z.of_nat (Decimal.nb_digits f) in
  let mag := Z.of_uint (Decimal.app (match i with Decimal.Pos u | Decimal.Neg u => u end) f) in
  let n := match i with Decimal.Pos _ => mag | Decimal.Neg _ => - mag end in
  let x :=
    if k <=? e then ratio (n * 10 ^ (e - k)) 1
    else ratio n (Z.to_pos (10 ^ (k - e))) in
  match i, n with
  | Decimal.Neg _, Z0 => nzero
  | _, _ => x
  end.

Definition of_number (n : Number.number) : option number :=
  match n with
  | Number.Decimal (Decimal.Decimal i f) => Some (of_decimal i f 0)
  | Number.Decimal (Decimal.DecimalExp i f e) => Some (of_decimal i f (Z.of_int e))
  | Number.Hexadecimal _ => None
  end.

(** Only integers are printed back as literals. *)
Definition to_number (x : number) : option Number.number :=
  match x with
  | S754_zero false => Some (Number.Decimal (Decimal.Decimal (Z.to_int 0) Decimal.Nil))
  | S754_finite _ _ e =>
      if (-53 <? e) && (e <? 64) && (floorZ x =? ceilZ x) then
        Some (Number.Decimal (Decimal.Decimal (Z.to_int (floorZ x)) Decimal.Nil))
      else None
  | _ => None
  end.

End Num.

Declare Scope num_scope.
Delimit Scope num_scope with num.
Bind Scope num_scope with spec_float.
Number Notation spec_float Num.of_number Num.to_number : num_scope.
Infix "+" := Num.add : num_scope.
Infix "-" := Num.sub : num_scope.
Infix "*" := Num.mul : num_scope.
Infix "/" := Num.div : num_scope.
Infix "%%" := Num.rem (at level 40, left associativity) : num_scope.
Infix "<?" := Num.ltb : num_scope.
Infix "<=?" := Num.leb : num_scope.
Infix ">?" := Num.gtb : num_scope.
Infix ">=?" := Num.geb : num_scope.
Notation "- x" := (Num.neg x) : num_scope.

(** ** Strings

    A JavaScript string is a sequence of UTF-16 code units. *)

Abbreviation jsstring := (list Z).

(** The code units of an ASCII literal. *)
Fixpoint jstr (s : string) : jsstring :=
  match s with
  | EmptyString => []
  | String c rest => Z.of_N (N_of_ascii c) :: jstr rest
  end.

(** WhiteSpace and LineTerminator of ECMAScript, the characters
    [String.prototype.trim] strips. *)
Definition isWhiteSpace (c : Z) : bool :=
  ((0x09 <=? c) && (c <=? 0x0D)) || (c =? 0x20) || (c =? 0xA0) || (c =? 0x1680)
  || ((0x2000 <=? c) && (c <=? 0x200A)) || (c =? 0x2028) || (c =? 0x2029)
  || (c =? 0x202F) || (c =? 0x205F) || (c =? 0x3000) || (c =? 0xFEFF).

Fixpoint trimStart (s : jsstring) : jsstring :=
  match s with
  | c :: rest => if isWhiteSpace c then trimStart rest else s
  | [] => []
  end.

Definition trimEnd (s : jsstring) : jsstring := rev (trimStart (rev s)).

Definition trim (s : jsstring) : jsstring := trimEnd (trimStart s).

(** Simple case mapping of the ASCII range. *)
Definition asciiLower (c : Z) : Z :=
  if (0x41 <=? c) && (c <=? 0x5A) then c + 32 else c.

Definition isAscii (c : Z) : bool := (0 <=? c) && (c <? 128).

(** ** The host

    What the sources take from the JavaScript engine and the browser and what
    ECMAScript leaves to the implementation: the Unicode case tables, the
    transcendental functions of [Math] (implementation-approximated), the
    decimal rendering of a number, and the DOM. *)

Class Host := {
  (** [String.prototype.toLowerCase] *)
  toLowerCase : jsstring -> jsstring;
  (** [Math.cos], [Math.sin], [Math.cbrt], [Math.pow], [Math.atan2] *)
  Math_cos : Num.number -> Num.number;
  Math_sin : Num.number -> Num.number;
  Math_cbrt : Num.number -> Num.number;
  Math_pow : Num.number -> Num.number -> Num.number;
  Math_atan2 : Num.number -> Num.number -> Num.number;
  (** [Number.prototype.toString] in radix 10 *)
  numberToString : Num.number -> jsstring;
  (** [typeof document !== 'undefined'] *)
  hasDocument : bool;
  (** the RGB bytes of a 1x1 canvas filled with a CSS colour name; an
      unknown name leaves the default fill style, black *)
  namedColorPixel : jsstring -> Z * Z * Z;
  (** [window.devicePixelRatio], when [window] is defined *)
  devicePixelRatio : option Num.number;
  (** whether [ctx.filter] blurs, as the probe of [gradient.ts] finds it *)
  filterBlur : bool;
}.

(** ** Calls that do not return

    A call may end without returning a value: *)

Inductive fault :=
| TypeError        (** a property read off [undefined] *)
| ReferenceError   (** [document] named where there is none *)
| IndexSizeError   (** [createImageData] with a zero dimension *)
| RangeError       (** an array of 2^32 elements or more, or image data
                       longer than a typed array can be *)
| Diverges         (** a loop whose counter cannot reach its bound *)
| OutOfRange.      (** a store outside the image buffer; a typed array drops
                       such a store silently, the model reports it so that
                       its absence can be stated *)

Inductive result (A : Type) :=
| Ok (a : A)
| Fail (f : fault).

Arguments Ok {A} a.
Arguments Fail {A} f.

#[global] Instance result_ret : MRet result := fun A a => Ok a.
#[global] Instance result_bind : MBind result :=
  fun A B k m => match m with Ok a => k a | Fail f => Fail f end.

(** The length of [Array.from({ length: count }, f)] for an integer [count]:
    [ToLength] reads a negative count as 0, and an array of 2^32 elements or
    more cannot be created, which is a [RangeError] thrown before [f] is
    called. *)
Definition arrayLength (count : Z) : result nat :=
  if 2 ^ 32 <=? count then Fail RangeError else Ok (Z.to_nat count).

(** ** hash.ts *)

Module Int32.

Definition wrapU (z : Z) : Z := z mod 2 ^ 32.
Definition wrapS (z : Z) : Z := let u := wrapU z in if u <? 2 ^ 31 then u else u - 2 ^ 32.

(** [a ^ b], [a | b], [a & b]: both operands through ToInt32, signed result. *)
Definition xor (a b : Z) : Z := wrapS (Z.lxor (wrapS a) (wrapS b)).
Definition or (a b : Z) : Z := wrapS (Z.lor (wrapS a) (wrapS b)).
Definition and (a b : Z) : Z := wrapS (Z.land (wrapS a) (wrapS b)).
(** [a >> k] and [a >>> k] *)
Definition sar (a k : Z) : Z := Z.shiftr (wrapS a) (k mod 32).
Definition shr (a k : Z) : Z := Z.shiftr (wrapU a) (k mod 32).
(** [Math.imul] *)
Definition imul (a b : Z) : Z := wrapS (wrapS a * wrapS b).

End Int32.

(** FNV-1a.  [hash * 0x01000193] is a multiplication of doubles: the product
    can need 56 bits and is rounded to 53 before [>>> 0] reduces it. *)
Definition fnv1a_step (hash : Z) (code : Z) : Z :=
  let hash := Int32.xor hash code in
  Num.toUint32 (Num.mul (Num.ofZ hash) (Num.ofZ 0x01000193)).

Definition fnv1a (str : jsstring) : Z := fold_left fnv1a_step str 0x811c9dc5.

(** FNV-1a as section 4.1 of the specification words it, XOR then multiply
    for each character with all arithmetic wrapped to unsigned 32 bits; it
    is here to be compared with [fnv1a]. *)
Definition fnv1a_wrapped (str : jsstring) : Z :=
  fold_left (fun hash code => (Z.lxor hash code * 0x01000193) mod 2 ^ 32) str 0x811c9dc5.

(** Mulberry32: one call of the closure returned by [seededRng], as a
    function from the captured [s] to the new [s] and the value returned. *)
Definition rng_next (s : Z) : Z * Num.number :=
  let s := Int32.or s 0 in
  let s := Int32.or (s + 0x6d2b79f5) 0 in
  let t := Int32.imul (Int32.xor s (Int32.shr s 15)) (Int32.or 1 s) in
  let t := Int32.xor (t + Int32.imul (Int32.xor t (Int32.shr t 7)) (Int32.or 61 t)) t in
  (s, Num.div (Num.ofZ (Int32.shr (Int32.xor t (Int32.shr t 14)) 0)) (Num.ofZ 4294967296)).

(** [count] calls of the closure, one after the other. *)
Fixpoint rng_draw (count : nat) (s : Z) : list Num.number :=
  match count with
  | O => []
  | S n => let '(s', x) := rng_next s in x :: rng_draw n s'
  end.

(** [seededRng(seed)] returns a closure over [s = seed]; it is observed
    through the values of its first [count] calls. *)
Definition seededRng (seed : Z) (count : nat) : list Num.number := rng_draw count seed.

(** [Array.from({ length: count }, () => rng())]: the array is created with
    its length, then filled by the calls of [rng] in order. *)
Definition hashToSeeds `{Host} (hash : jsstring) (count : Z) : result (list Num.number) :=
  let base := fnv1a (trim (toLowerCase hash)) in
  let rng := seededRng base in
  n ← arrayLength count;
  Ok (rng n).

(** ** color.ts *)

Module Oklch.
Record t := mk { l : Num.number; c : Num.number; h : Num.number }.
End Oklch.

Abbreviation OklchColor := Oklch.t.

Definition Math_PI : Num.number := 3.141592653589793%num.

Definition isDigit (c : Z) : bool := (0x30 <=? c) && (c <=? 0x39).
Definition isAlpha (c : Z) : bool :=
  ((0x41 <=? c) && (c <=? 0x5A)) || ((0x61 <=? c) && (c <=? 0x7A)).

(** The value of a digit in radix 16, if it is one. *)
Definition hexDigit (c : Z) : option Z :=
  if isDigit c then Some (c - 0x30)
  else if (0x41 <=? c) && (c <=? 0x46) then Some (c - 0x41 + 10)
  else if (0x61 <=? c) && (c <=? 0x66) then Some (c - 0x61 + 10)
  else None.

Definition isHexDigit (c : Z) : bool :=
  match hexDigit c with Some _ => true | None => false end.

(** [s.startsWith(p)] *)
Fixpoint startsWith (s p : jsstring) : bool :=
  match p, s with
  | [], _ => true
  | a :: p', b :: s' => (a =? b) && startsWith s' p'
  | _ :: _, [] => false
  end.

(** [s.replace('#', '')]: the first occurrence only. *)
Fixpoint removeFirst (x : Z) (s : jsstring) : jsstring :=
  match s with
  | [] => []
  | a :: rest => if a =? x then rest else a :: removeFirst x rest
  end.

(** The digits of [parseInt(_, 16)] after sign and prefix: the longest run of
    hexadecimal digits, with the integer they spell. *)
Fixpoint hexRun (acc : Z) (seen : bool) (s : jsstring) : option Z :=
  match s with
  | a :: rest =>
      match hexDigit a with
      | Some d => hexRun (16 * acc + d) true rest
      | None => if seen then Some acc else None
      end
  | [] => if seen then Some acc else None
  end.

(** [parseInt(s, 16)]: leading white space, a sign, an optional [0x], then
    digits; NaN when there is no digit. *)
Definition parseInt16 (s : jsstring) : Num.number :=
  let s := trimStart s in
  let '(negative, s) :=
    match s with
    | 0x2D :: rest => (true, rest)
    | 0x2B :: rest => (false, rest)
    | _ => (false, s)
    end in
  let s :=
    match s with
    | 0x30 :: 0x78 :: rest => rest
    | 0x30 :: 0x58 :: rest => rest
    | _ => s
    end in
  match hexRun 0 false s with
  | None => Num.nan
  | Some 0 => if negative then Num.nzero else Num.pzero
  | Some n => Num.ofZ (if negative then - n else n)
  end.

(** [hexToRgb] of color.ts *)
Definition hexToRgb (hex : jsstring) : Z * Z * Z :=
  let clean := removeFirst 0x23 hex in
  let full :=
    if (length clean =? 3)%nat then flat_map (fun c => [c; c]) clean else clean in
  let n := Num.toInt32 (parseInt16 full) in
  (Int32.and (Int32.sar n 16) 255, Int32.and (Int32.sar n 8) 255, Int32.and n 255).

Section Conversions.
Context `{Host}.
Local Open Scope num_scope.

Definition linearize (c : Num.number) : Num.number :=
  let s := c / 255 in
  if s <=? 0.04045 then s / 12.92 else Math_pow ((s + 0.055) / 1.055) 2.4.

Definition rgbToOklch (r g b : Num.number) : OklchColor :=
  let rl := linearize r in
  let gl := linearize g in
  let bl := linearize b in
  let x := 0.4124564 * rl + 0.3575761 * gl + 0.1804375 * bl in
  let y := 0.2126729 * rl + 0.7151522 * gl + 0.0721750 * bl in
  let z := 0.0193339 * rl + 0.1191920 * gl + 0.9503041 * bl in
  let lm := Math_cbrt (0.8189330101 * x + 0.3618667424 * y - 0.1288597137 * z) in
  let mm := Math_cbrt (0.0329845436 * x + 0.9293118715 * y + 0.0361456387 * z) in
  let sm := Math_cbrt (0.0482003018 * x + 0.2643662691 * y + 0.6338517070 * z) in
  let L := 0.2104542553 * lm + 0.7936177850 * mm - 0.0040720468 * sm in
  let a := 1.9779984951 * lm - 2.4285922050 * mm + 0.4505937099 * sm in
  let bk := 0.0259040371 * lm + 0.7827717662 * mm - 0.8086757660 * sm in
  {| Oklch.l := L;
     Oklch.c := Num.sqrt (a * a + bk * bk);
     Oklch.h := ((Math_atan2 bk a * 180 / Math_PI) + 360) %% 360 |}.

Definition toSrgb (v : Num.number) : Num.number :=
  let cv := Num.max 0 (Num.min 1 v) in
  if cv <=? 0.0031308 then cv * 12.92 else 1.055 * Math_pow cv (1 / 2.4) - 0.055.

End Conversions.

(** [n.toString(16)] for the value of a [Math.round]: an integer, NaN or an
    infinity. *)
Definition hexChar (d : Z) : Z := if d <? 10 then 0x30 + d else 0x61 + (d - 10).

Fixpoint hexDigits (fuel : nat) (n : Z) (acc : jsstring) : jsstring :=
  match fuel with
  | O => acc
  | S fuel' =>
      let acc' := hexChar (n mod 16) :: acc in
      if n / 16 =? 0 then acc' else hexDigits fuel' (n / 16) acc'
  end.

Definition toString16 (x : Num.number) : jsstring :=
  match x with
  | S754_nan => jstr "NaN"
  | S754_infinity false => jstr "Infinity"
  | S754_infinity true => jstr "-Infinity"
  | S754_zero _ => jstr "0"
  | S754_finite s _ _ =>
      let n := Z.abs (Num.truncZ x) in
      (if s then jstr "-" else []) ++ hexDigits (S (Z.to_nat (Z.log2 n))) n []
  end.

(** [s.padStart(2, '0')] *)
Definition padStart2 (s : jsstring) : jsstring :=
  match s with
  | [] => jstr "00"
  | [a] => [0x30; a]
  | _ => s
  end.

Section OklchToHex.
Context `{Host}.
Local Open Scope num_scope.

Definition oklchToHex (col : OklchColor) : jsstring :=
  let '(Oklch.mk l c h) := col in
  let hRad := h * Math_PI / 180 in
  let a := c * Math_cos hRad in
  let b := c * Math_sin hRad in
  let lm := l + 0.3963377774 * a + 0.2158037573 * b in
  let mm := l - 0.1055613458 * a - 0.0638541728 * b in
  let sm := l - 0.0894841775 * a - 1.2914855480 * b in
  let L3 := lm * lm * lm in
  let M3 := mm * mm * mm in
  let S3 := sm * sm * sm in
  let rl := 4.0767416621 * L3 - 3.3077115913 * M3 + 0.2309699292 * S3 in
  let gl := -1.2684380046 * L3 + 2.6097574011 * M3 - 0.3413193965 * S3 in
  let bl := -0.0041960863 * L3 - 0.7034186147 * M3 + 1.7076147010 * S3 in
  0x23%Z :: flat_map (fun v => padStart2 (toString16 (Num.round (toSrgb v * 255)))) [rl; gl; bl].

End OklchToHex.

(** *** Tone parsing *)

(** The longest prefix of [s] whose characters satisfy [p], and the rest. *)
Fixpoint spanp (p : Z -> bool) (s : jsstring) : jsstring * jsstring :=
  match s with
  | a :: rest =>
      if p a then let '(run, tl) := spanp p rest in (a :: run, tl) else ([], s)
  | [] => ([], [])
  end.

Definition isNumChar (c : Z) : bool := isDigit c || (c =? 0x2E).

(** [/oklch\(\s*([\d.]+%?)\s+([\d.]+)\s+([\d.]+)\s*\)/i] tried at the start
    of [s].  The character classes that follow one another are disjoint, so
    the greedy reading is the only one and no backtracking is lost. *)
Definition matchOklchAt (s : jsstring) : option (jsstring * jsstring * jsstring) :=
  if negb (startsWith (map asciiLower (take 6 s)) (jstr "oklch(")) then None else
  let s := drop 6 s in
  let '(_, s) := spanp isWhiteSpace s in
  let '(g1, s) := spanp isNumChar s in
  if (length g1 =? 0)%nat then None else
  let '(g1, s) := match s with 0x25 :: rest => (g1 ++ [0x25], rest) | _ => (g1, s) end in
  let '(ws, s) := spanp isWhiteSpace s in
  if (length ws =? 0)%nat then None else
  let '(g2, s) := spanp isNumChar s in
  if (length g2 =? 0)%nat then None else
  let '(ws, s) := spanp isWhiteSpace s in
  if (length ws =? 0)%nat then None else
  let '(g3, s) := spanp isNumChar s in
  if (length g3 =? 0)%nat then None else
  let '(_, s) := spanp isWhiteSpace s in
  match s with
  | 0x29 :: _ => Some (g1, g2, g3)
  | _ => None
  end.

(** [t.match(re)] for the pattern above, which is not anchored: the leftmost
    position where it matches. *)
Fixpoint matchOklch (s : jsstring) : option (jsstring * jsstring * jsstring) :=
  match matchOklchAt s with
  | Some m => Some m
  | None => match s with [] => None | _ :: rest => matchOklch rest end
  end.

Definition digitsValue (ds : jsstring) : Z := fold_left (fun acc d => 10 * acc + (d - 0x30)) ds 0.

(** [parseFloat] on a string of digits and dots (with, possibly, a trailing
    [%]): the longest prefix that is a decimal literal, rounded to the
    nearest double; NaN when no prefix is one. *)
Definition parseFloat (s : jsstring) : Num.number :=
  let '(ip, s) := spanp isDigit s in
  let fp := match s with 0x2E :: rest => fst (spanp isDigit rest) | _ => [] end in
  match ip, fp with
  | [], [] => Num.nan
  | _, _ => Num.ratio (digitsValue (ip ++ fp)) (Z.to_pos (10 ^ Z.of_nat (length fp)))
  end.

(** [s.endsWith('%')] *)
Definition endsWithPercent (s : jsstring) : bool :=
  match rev s with 0x25 :: _ => true | _ => false end.

Section ParseTone.
Context `{Host}.
Local Open Scope num_scope.

Definition parseTone (tone : jsstring) : option OklchColor :=
  let t := trim tone in
  if negb (length t =? 0)%nat && forallb isAlpha t then
    if negb hasDocument then None else
    let '(r, g, b) := namedColorPixel t in
    if (0 <? r + g + b)%Z || bool_decide (toLowerCase t = jstr "black")
    then Some (rgbToOklch (Num.ofZ r) (Num.ofZ g) (Num.ofZ b))
    else None
  else if startsWith t (jstr "#")
          || ((3 <=? length t)%nat && (length t <=? 6)%nat && forallb isHexDigit t) then
    let '(r, g, b) := hexToRgb (if startsWith t (jstr "#") then t else 0x23%Z :: t) in
    Some (rgbToOklch (Num.ofZ r) (Num.ofZ g) (Num.ofZ b))
  else
    match matchOklch t with
    | Some (m1, m2, m3) =>
        let l := if endsWithPercent m1 then parseFloat m1 / 100 else parseFloat m1 in
        Some {| Oklch.l := l; Oklch.c := parseFloat m2; Oklch.h := parseFloat m3 |}
    | None => None
    end.

End ParseTone.

(** *** Colour generation *)

(** [tones[ti]] for a number [ti]: defined when [ti] is an index of the array. *)
Definition lookupNum {A} (xs : list A) (i : Num.number) : option A :=
  match i with
  | S754_zero _ => xs !! 0%nat
  | S754_finite false _ _ =>
      if Num.floorZ i =? Num.ceilZ i then xs !! Z.to_nat (Num.floorZ i) else None
  | _ => None
  end.

Section GenerateColor.
Local Open Scope num_scope.

(** The result is [None] when [tone.h] would be read off [undefined]. *)
Definition generateColor (seed lSeed cSeed : Num.number) (tones : option (list OklchColor))
    (isSecondary : bool) (baseHue : option Num.number) : option OklchColor :=
  match tones with
  | Some ((_ :: _) as tones) =>
      let len := Num.ofZ (Z.of_nat (length tones)) in
      let ti := Num.floor (seed * len) %% len in
      tone ← lookupNum tones ti;
      let h := (Oklch.h tone + (seed * 2 - 1) * 30 + 360) %% 360 in
      let l := if isSecondary then 0.22 + lSeed * 0.18 else 0.52 + lSeed * 0.22 in
      let c :=
        if isSecondary
        then Num.max (Oklch.c tone * 0.5) 0.06 + cSeed * 0.08
        else Num.max (Oklch.c tone * 0.8) 0.14 + cSeed * 0.10 in
      Some {| Oklch.l := l; Oklch.c := Num.min c 0.37; Oklch.h := h |}
  | _ =>
      let hue := match baseHue with Some b => b | None => seed * 360 end in
      let h := (hue + 360) %% 360 in
      let '(l, c) :=
        if isSecondary
        then (0.18 + cSeed * 0.20, 0.08 + lSeed * 0.12)
        else (0.55 + lSeed * 0.22, 0.18 + cSeed * 0.18) in
      Some {| Oklch.l := l; Oklch.c := Num.min c 0.37; Oklch.h := h |}
  end.

End GenerateColor.

(** ** index.ts *)

Section HashToColors.
Context `{Host}.
Local Open Scope num_scope.

(** [seeds[i]]: [undefined] past the end, which arithmetic reads as NaN. *)
Definition seedAt (seeds : list Num.number) (i : nat) : Num.number := nth i seeds Num.nan.

(** A [TypeError] of [generateColor] ends the call. *)
Definition hashToColors (hash : jsstring) (tones : option (list jsstring)) (count : Z)
    : result (list OklchColor) :=
  seeds ← hashToSeeds hash (count * 3);
  let parsed := fmap (M := option) (fun ts => omap parseTone ts) tones in
  let toneList := match parsed with Some ((_ :: _) as p) => Some p | _ => None end in
  let baseHue := match toneList with Some _ => None | None => Some ((seedAt seeds 0 * 360) %% 360) end in
  n ← arrayLength count;
  match
    mapM (fun i =>
            generateColor (seedAt seeds (i * 3)) (seedAt seeds (i * 3 + 1)) (seedAt seeds (i * 3 + 2))
              toneList (0 <? i)%nat baseHue)
         (seq 0 n)
  with
  | Some palette => Ok palette
  | None => Fail TypeError
  end.

End HashToColors.

(** ** Effects

    The renderers act on a canvas that the caller owns.  What a call does to
    it is the sequence of operations it performs, in order; a call that
    performs none leaves the canvas as it found it. *)

(** A [for] loop over a list of indices, threading the state. *)
Fixpoint forEach {A B} (xs : list B) (body : A -> B -> result A) (a : A) : result A :=
  match xs with
  | [] => Ok a
  | x :: rest => a' ← body a x; forEach rest body a'
  end.

(** The number of turns of [for (let i = 0; i < bound; i++)].  The counter
    is a double: it stops growing at 2^53, so the loop does not end when the
    bound is beyond. *)
Definition loopCount (bound : Num.number) : result Z :=
  match bound with
  | S754_infinity false => Fail Diverges
  | S754_finite false _ _ =>
      if Num.ceilZ bound <=? 2 ^ 53 then Ok (Num.ceilZ bound) else Fail Diverges
  | _ => Ok 0
  end.

(** The cancellation closure returned when animation is on. *)
Inductive Handle := CancelAnimationFrame.

Record Layer := {
  layer_shape : list (Num.number * Num.number);
  layer_fill : jsstring;
  layer_tx : Num.number;
  layer_ty : Num.number;
  layer_rotate : Num.number;
  layer_scale : Num.number;
  layer_blur : Num.number;
  layer_filter : bool;
  layer_composite : jsstring;
  layer_alpha : Num.number;
}.

Inductive CanvasOp :=
| SetWidth (w : Num.number)
| SetHeight (h : Num.number)
| SetStyleWidth (css : jsstring)
| SetStyleHeight (css : jsstring)
| Scale (x y : Num.number)
| ClearRect (x y w h : Num.number)
| FillStyle (css : jsstring)
| FillRect (x y w h : Num.number)
| DrawLayer (layer : Layer)  (** a shape drawn off screen, blurred and composited *)
| ResetCompositing
| PutImageData (side : Z) (data : list Z)
| RequestAnimationFrame.

Section DevicePixelRatio.
Context `{Host}.

(** [getDevicePixelRatio] of gradient.ts and dither.ts *)
Definition getDevicePixelRatio : Num.number :=
  match devicePixelRatio with
  | None => 1%num
  | Some d =>
      match d with
      | S754_zero _ | S754_nan => 1%num
      | _ => Num.min d 3%num
      end
  end.

(** [`${x}px`] *)
Definition px (x : Num.number) : jsstring := numberToString x ++ jstr "px".

End DevicePixelRatio.

(** ** gradient.ts *)

Module Gradient.

Record GradientOptions := {
  size : Num.number;
  colors : list OklchColor;
  animated : bool;
  seeds : list Num.number;
}.

Local Open Scope num_scope.

Definition SHAPES : list (list (Num.number * Num.number)) :=
  [ [(0.85, 0.5); (0.75, 0.18); (0.38, 0.22); (0.18, 0.52); (0.38, 0.82); (0.72, 0.78)];
    [(0.22, 0.32); (0.78, 0.28); (0.82, 0.62); (0.5, 0.88); (0.18, 0.68); (0.28, 0.48)];
    [(0.5, 0.12); (0.88, 0.45); (0.72, 0.88); (0.28, 0.82); (0.12, 0.42); (0.35, 0.18)];
    [(0.62, 0.25); (0.9, 0.55); (0.65, 0.9); (0.25, 0.7); (0.1, 0.4); (0.35, 0.15)];
    [(0.15, 0.2); (0.55, 0.08); (0.92, 0.35); (0.78, 0.75); (0.4, 0.92); (0.2, 0.6)];
    [(0.45, 0.08); (0.82, 0.3); (0.7, 0.85); (0.3, 0.88); (0.08, 0.5); (0.25, 0.25)] ].

Definition LAYER_OPTS : list (jsstring * Num.number) :=
  [ (jstr "source-over", 0.9); (jstr "overlay", 0.48); (jstr "soft-light", 0.7);
    (jstr "source-over", 0.78); (jstr "overlay", 0.4); (jstr "soft-light", 0.6) ].

Definition ROT_SPEEDS : list Num.number := [0.5; 0.6; 0.45; 0.55; 0.5; 0.65].
Definition DRIFT_FREQS : list Num.number := [0.5; 0.45; 0.4; 0.48; 0.52; 0.38].
Definition DRIFT_PHASE_OFFSETS : list Num.number := [0; 1; 2; 0.5; 1.5; 3].
Definition PHASE_SPEED : Num.number := 1.2.

Section Render.
Context `{Host}.

(** [seeds[i].toString()]: a fault when the seed is missing. *)
Definition seedString (seeds : list Num.number) (i : nat) : result jsstring :=
  match seeds !! i with
  | Some x => Ok (numberToString x)
  | None => Fail TypeError
  end.

(** One frame: the base colour, then the six layers. *)
Definition draw (size : Num.number) (animated : bool) (allSeeds : list Num.number)
    (hex0 : jsstring) (hexColors : list jsstring) (blur dpr : Num.number) (useFilter : bool)
    (phase : Num.number) : list CanvasOp :=
  let DRIFT_AMP := size * 0.18 in
  let animResScale := if negb useFilter && animated then 0.5 else 1 in
  [ClearRect 0 0 size size; FillStyle hex0; FillRect 0 0 size size]
  ++ map (fun i : nat =>
       let j := (i * 4)%nat in
       let n := Num.ofZ (Z.of_nat i) in
       let tx := (seedAt allSeeds j - 0.5) * size * 0.35 in
       let ty := (seedAt allSeeds (j + 1) - 0.5) * size * 0.35 in
       let rotate := (seedAt allSeeds (j + 2) - 0.5) * Math_PI * 1.2 in
       let scale0 := 0.85 + seedAt allSeeds (j + 3) * 0.5 in
       let rot := rotate + (if animated then phase * seedAt ROT_SPEEDS i else 0) in
       let driftX :=
         if animated
         then DRIFT_AMP * Math_sin (phase * seedAt DRIFT_FREQS i + seedAt DRIFT_PHASE_OFFSETS i)
         else 0 in
       let driftY :=
         if animated
         then DRIFT_AMP * Math_sin (phase * seedAt DRIFT_FREQS ((i + 2) mod 6)
                                    + seedAt DRIFT_PHASE_OFFSETS i * 1.3)
         else 0 in
       let scalePulse := if animated then 1 + 0.15 * Math_sin (phase * 0.9 + n * 0.7) else 1 in
       let opts := nth i LAYER_OPTS ([], Num.nan) in
       DrawLayer {| layer_shape := nth i SHAPES [];
                    layer_fill := nth (i mod 3) hexColors [];
                    layer_tx := tx + driftX;
                    layer_ty := ty + driftY;
                    layer_rotate := rot;
                    layer_scale := scale0 * scalePulse;
                    layer_blur := if useFilter then blur * dpr else blur * dpr * 1.4 * animResScale;
                    layer_filter := useFilter;
                    layer_composite := fst opts;
                    layer_alpha := snd opts |})
       (seq 0 6)
  ++ [ResetCompositing].

(** The handle (none when nothing is animated) and what was done to the
    canvas.  With animation on, the frames are drawn later, by the host's
    frame scheduler. *)
Definition renderGradient (opts : GradientOptions) : result (option Handle * list CanvasOp) :=
  let size := size opts in
  let colors := colors opts in
  if (length colors <? 4)%nat then Ok (None, []) else
  let dpr := getDevicePixelRatio in
  let setup :=
    [SetWidth (size * dpr); SetHeight (size * dpr);
     SetStyleWidth (px size); SetStyleHeight (px size); Scale dpr dpr] in
  s0 ← seedString (seeds opts) 0;
  s1 ← seedString (seeds opts) 1;
  s2 ← seedString (seeds opts) 2;
  s3 ← seedString (seeds opts) 3;
  allSeeds ← hashToSeeds (s0 ++ s1 ++ s2 ++ s3) 24;
  (* the off-screen canvas comes from [document.createElement] *)
  if negb hasDocument then Fail ReferenceError else
  let hexAt (i : nat) :=
    match colors !! i with Some col => oklchToHex col | None => [] end in
  let hex0 := hexAt 0%nat in
  let hexColors := [hexAt 1%nat; hexAt 2%nat; hexAt 3%nat] in
  let blur := Num.max 2 (Num.round (size * 0.21)) in
  let frame := draw size (animated opts) allSeeds hex0 hexColors blur dpr filterBlur in
  if negb (animated opts) then Ok (None, setup ++ frame 0)
  else Ok (Some CancelAnimationFrame, setup ++ [RequestAnimationFrame]).

End Render.

End Gradient.

(** ** dither.ts *)

Module Dither.

Record DitherOptions := {
  size : Num.number;
  colors : list OklchColor;
  dotScale : option Num.number;
  animated : bool;
  seeds : list Num.number;
}.

Record Rgb := { r : Z; g : Z; b : Z }.

Local Open Scope num_scope.

(** The 8x8 Bayer matrix, each level divided by 64. *)
Definition BAYER8 : list (list Num.number) :=
  map (map (fun v => Num.ofZ v / 64))
    [ [ 0; 32;  8; 40;  2; 34; 10; 42];
      [48; 16; 56; 24; 50; 18; 58; 26];
      [12; 44;  4; 36; 14; 46;  6; 38];
      [60; 28; 52; 20; 62; 30; 54; 22];
      [ 3; 35; 11; 43;  1; 33;  9; 41];
      [51; 19; 59; 27; 49; 17; 57; 25];
      [15; 47;  7; 39; 13; 45;  5; 37];
      [63; 31; 55; 23; 61; 29; 53; 21] ]%Z.

Definition bayerAt (gy gx : Z) : Num.number :=
  nth (Z.to_nat (gx mod 8)) (nth (Z.to_nat (gy mod 8)) BAYER8 []) Num.nan.

(** [hexToRgb] of dither.ts: no expansion of the three-digit form. *)
Definition hexToRgb (hex : jsstring) : Rgb :=
  let n := Num.toInt32 (parseInt16 (removeFirst 0x23%Z hex)) in
  {| r := Int32.and (Int32.sar n 16) 255;
     g := Int32.and (Int32.sar n 8) 255;
     b := Int32.and n 255 |}.

(** [d[i] = v] on the image data, reported when it is out of range. *)
Definition store (d : list Z) (i : Z) (v : Z) : result (list Z) :=
  if (0 <=? i)%Z && (i <? Z.of_nat (length d))%Z
  then Ok (<[Z.to_nat i := v]> d)
  else Fail OutOfRange.

(** [ctx.createImageData(s, s)]: the arguments are converted to [long]; a
    zero throws, a negative one counts by its magnitude, and the data are a
    typed array, whose length stays below 2^53.  The data start as
    transparent black. *)
Definition createImageData (s : Num.number) : result (Z * list Z) :=
  let side := Z.abs (Num.toInt32 s) in
  if (side =? 0)%Z then Fail IndexSizeError
  else if (2 ^ 53 <=? side * side * 4)%Z then Fail RangeError
  else Ok (side, replicate (Z.to_nat (side * side * 4)) 0%Z).

Section Render.
Context `{Host}.

Definition padding : Z := 1.
Definition swirlSpeed : Num.number := 0.45.

(** The two palette reads, [colors[0]] and
    [colors[Math.min(1, colors.length - 1)]], each through [oklchToHex] and
    [hexToRgb].  An array length is an integer below 2^32, so the index is
    computed on [Z]; reading past the array gives [undefined], which
    [oklchToHex] cannot destructure. *)
Definition paletteIndexB (colors : list OklchColor) : Z :=
  Z.min 1 (Z.of_nat (length colors) - 1).

Definition paletteColor (colors : list OklchColor) (i : Z) : result Rgb :=
  match (if (i <? 0)%Z then None else colors !! Z.to_nat i) with
  | Some col => Ok (hexToRgb (oklchToHex col))
  | None => Fail TypeError
  end.

(** The sizes [renderDither] derives from its options. *)
Definition sizePx (opts : DitherOptions) : Num.number :=
  Num.round (size opts * getDevicePixelRatio).

Definition dotScalePx (opts : DitherOptions) : Num.number :=
  let dotScaleLogical :=
    match dotScale opts with
    | Some s => s
    | None => Num.max 2 (Num.round (size opts / 35))
    end in
  Num.max 1 (Num.round (dotScaleLogical * getDevicePixelRatio)).

Definition gridSize (opts : DitherOptions) : Num.number :=
  Num.ceil (sizePx opts / dotScalePx opts) + Num.ofZ padding * 2.

Definition cellPhase (seeds : list Num.number) (gx gy : Z) : Num.number :=
  ((Num.ofZ gx * 31 + Num.ofZ gy * 17) * (seedAt seeds 2 * 1000 + 1)
   + Num.ofZ (Int32.or (Num.toInt32 (seedAt seeds 3 * 1000)) 0))
  %% 1000 / 1000 * Math_PI * 2.

Definition cellAmp (seeds : list Num.number) (gx gy : Z) : Num.number :=
  0.035
  + (Num.ofZ (Int32.or (Num.toInt32 (Num.ofZ gx * 7 + Num.ofZ gy * 13 + seedAt seeds 2 * 50)) 0)
     %% 55) / 1100.

(** The eased value of a cell, the one compared with the Bayer level. *)
Definition cellValue (seeds : list Num.number) (animated : bool) (gridSize : Num.number)
    (cosA sinA falloff phase : Num.number) (gx gy : Z) : Num.number :=
  let nx := (Num.ofZ gx - Num.ofZ padding + 0.5) / (gridSize - Num.ofZ padding * 2) in
  let ny := (Num.ofZ gy - Num.ofZ padding + 0.5) / (gridSize - Num.ofZ padding * 2) in
  let proj := (nx - 0.5) * cosA + (ny - 0.5) * sinA in
  let drift :=
    if animated then
      let p := cellPhase seeds gx gy in
      let a := cellAmp seeds gx gy in
      a * Math_sin (phase * 0.3 + p)
      + a * 0.55 * Math_sin (phase * 0.1 + p * 1.7)
      + 0.012 * Math_sin (phase * 0.2)
    else 0 in
  let tRaw := (proj - drift + falloff) / (falloff * 2) in
  let tClamp := Num.max 0 (Num.min 1 tRaw) in
  tClamp * tClamp * (3 - 2 * tClamp).

Local Open Scope Z_scope.

(** The first loop of [draw]: every pixel takes the colour [colB], opaque. *)
Definition fillBackground (sizePx : Z) (colB : Rgb) (d : list Z) : result (list Z) :=
  forEach (seqZ 0 (sizePx * sizePx))
    (fun d k =>
       let i := 4 * k in
       d ← store d i (r colB);
       d ← store d (i + 1) (g colB);
       d ← store d (i + 2) (b colB);
       store d (i + 3) 255)
    d.

(** The pixel loops of one cell: the accent colour over the cell's square,
    clipped to the canvas. *)
Definition paintCell (sizePx dotScale : Z) (colA : Rgb) (gx gy : Z) (d : list Z)
    : result (list Z) :=
  forEach (seqZ 0 dotScale)
    (fun d py =>
       forEach (seqZ 0 dotScale)
         (fun d px =>
            let x := (gx - padding) * dotScale + px in
            let y := (gy - padding) * dotScale + py in
            if (x <? 0) || (y <? 0) || (x >=? sizePx) || (y >=? sizePx) then Ok d else
            let idx := (y * sizePx + x) * 4 in
            d ← store d idx (r colA);
            d ← store d (idx + 1) (g colA);
            store d (idx + 2) (b colA))
         d)
    d.

(** The grid loops: a cell is skipped when its value exceeds its level. *)
Definition paintGrid (value : Z -> Z -> Num.number) (sizePx : Z) (dotScale : Num.number)
    (gridSize : Z) (colA : Rgb) (d : list Z) : result (list Z) :=
  forEach (seqZ 0 gridSize)
    (fun d gy =>
       forEach (seqZ 0 gridSize)
         (fun d gx =>
            if Num.gtb (value gx gy) (bayerAt gy gx) then Ok d else
            n ← loopCount dotScale;
            paintCell sizePx n colA gx gy d)
         d)
    d.

(** The value of every cell in one frame: [baseAngle] and [falloff] come
    from the seeds, the angle turns with the phase when animated. *)
Definition frameValue (seeds : list Num.number) (animated : bool) (gridSize phase : Num.number)
    : Z -> Z -> Num.number :=
  let baseAngle := (seedAt seeds 0 * Math_PI * 2)%num in
  let falloff := (0.55 + seedAt seeds 1 * 0.25)%num in
  let angle := (baseAngle + (if animated then phase * swirlSpeed else 0))%num in
  let cosA := Math_cos angle in
  let sinA := Math_sin angle in
  cellValue seeds animated gridSize cosA sinA falloff phase.

(** [draw(phase)]: the image data are created, filled, painted and put on
    the canvas. *)
Definition draw (seeds : list Num.number) (animated : bool) (sizePx dotScale gridSize : Num.number)
    (colA colB : Rgb) (phase : Num.number) : result (list CanvasOp) :=
  '(side, d) ← createImageData sizePx;
  let n := Num.truncZ sizePx in
  d ← fillBackground n colB d;
  cells ← loopCount gridSize;
  d ← paintGrid (frameValue seeds animated gridSize phase) n dotScale cells colA d;
  Ok [PutImageData side d].

Definition renderDither (opts : DitherOptions) : result (option Handle * list CanvasOp) :=
  let colors := colors opts in
  let setup :=
    [SetWidth (sizePx opts); SetHeight (sizePx opts);
     SetStyleWidth (px (size opts)); SetStyleHeight (px (size opts))] in
  colA ← paletteColor colors 0;
  colB ← paletteColor colors (paletteIndexB colors);
  if negb (animated opts) then
    frame ← draw (seeds opts) false (sizePx opts) (dotScalePx opts) (gridSize opts) colA colB 0%num;
    Ok (None, setup ++ frame)
  else Ok (Some CancelAnimationFrame, setup ++ [RequestAnimationFrame]).


End Render.

End Dither.

(** ** index.ts: the entry points *)

Module Index.




Section Entry.
Context `{Host}.




End Entry.

End Index.

(** ** A reference host

    One executable host, for running the model: ASCII case mapping (what
    [toLowerCase] does on ASCII strings), [Math] functions by argument
    reduction and power series, shortest round-trip decimal rendering, no
    DOM colour names beyond a few, a device pixel ratio of 1. *)

Module RefHost.

Local Open Scope num_scope.

Definition ln2 : Num.number := 0.6931471805599453.
Definition twoPi : Num.number := 6.283185307179586.
Definition halfPi : Num.number := 1.5707963267948966.

(** [sum_{k < n} term_k] where [term_{k+1} = term_k * step k]. *)
Fixpoint series (n : nat) (k : Z) (step : Z -> Num.number) (term acc : Num.number) : Num.number :=
  match n with
  | O => acc
  | S n' => series n' (k + 1)%Z step (term * step k) (acc + term)
  end.

Definition reduceAngle (x : Num.number) : Num.number := x - twoPi * Num.round (x / twoPi).

Definition sin (x : Num.number) : Num.number :=
  if negb (Num.isFinite x) then Num.nan else
  let r := reduceAngle x in
  let r2 := r * r in
  series 16 0%Z (fun k => - (r2 / Num.ofZ ((2 * k + 2) * (2 * k + 3)))) r 0.

Definition cos (x : Num.number) : Num.number :=
  if negb (Num.isFinite x) then Num.nan else
  let r := reduceAngle x in
  let r2 := r * r in
  series 16 0%Z (fun k => - (r2 / Num.ofZ ((2 * k + 1) * (2 * k + 2)))) 1 0.

Definition exp (x : Num.number) : Num.number :=
  match x with
  | S754_nan => Num.nan
  | S754_infinity true => 0
  | S754_infinity false => x
  | _ =>
      let k := Num.roundZ (x / ln2) in
      let r := x - Num.ofZ k * ln2 in
      SFldexp Num.prec Num.emax (series 20 0%Z (fun i => r / Num.ofZ (i + 1)) 1 0) k
  end.

(** The logarithm of a positive finite number. *)
Definition ln (x : Num.number) : Num.number :=
  let '(m, e) := SFfrexp Num.prec Num.emax x in
  let '(m, e) := if m <? 0.7071067811865476 then (m * 2, (e - 1)%Z) else (m, e) in
  let z := (m - 1) / (m + 1) in
  let z2 := z * z in
  let s := series 14 0%Z (fun k => z2 * Num.ofZ (2 * k + 1) / Num.ofZ (2 * k + 3)) z 0 in
  Num.ofZ e * ln2 + 2 * s.

Definition pow (x y : Num.number) : Num.number :=
  match y, x with
  | S754_zero _, _ => 1
  | S754_nan, _ | _, S754_nan => Num.nan
  | _, S754_zero _ => if Num.signbit y then Num.pinf else 0
  | _, S754_infinity false => if Num.signbit y then 0 else Num.pinf
  | _, S754_finite false _ _ => exp (y * ln x)
  | _, _ => Num.nan
  end.

Definition cbrt (x : Num.number) : Num.number :=
  match x with
  | S754_finite s _ _ =>
      let a := SFabs x in
      let y := exp (ln a / 3) in
      let y := y - (y * y * y - a) / (3 * y * y) in
      if s then - y else y
  | _ => x
  end.

(** The arctangent on [0, 1]: two halvings of the angle, then the series. *)
Definition atan01 (t : Num.number) : Num.number :=
  let half (u : Num.number) := u / (1 + Num.sqrt (1 + u * u)) in
  let u := half (half t) in
  let u2 := u * u in
  4 * series 14 0%Z (fun k => - (u2 * Num.ofZ (2 * k + 1) / Num.ofZ (2 * k + 3))) u 0.

Definition atanPos (t : Num.number) : Num.number :=
  if t <=? 1 then atan01 t else halfPi - atan01 (1 / t).

Definition atan2 (y x : Num.number) : Num.number :=
  if Num.isNaN y || Num.isNaN x then Num.nan else
  let a :=
    match x, y with
    | S754_zero _, S754_zero _ => 0
    | S754_zero _, _ => halfPi
    | S754_infinity _, S754_infinity _ => halfPi / 2
    | S754_infinity _, _ => 0
    | _, S754_infinity _ => halfPi
    | _, _ => atanPos (SFabs y / SFabs x)
    end in
  let a := if Num.signbit x then Math_PI - a else a in
  if Num.signbit y then - a else a.

(** Decimal rendering.  [x = m * 2^e > 0] lies in [[10^(n-1), 10^n)]; the
    digits are the shortest [s] with [s * 10^(n-k)] reading back as [x]. *)
Definition ratioZ (a b : Z) : Num.number :=
  Num.ratio a (Z.to_pos b).

Definition scale10 (s : Z) (p : Z) : Num.number :=
  if (0 <=? p)%Z then ratioZ (s * 10 ^ p) 1 else ratioZ s (10 ^ (- p)).

(** [floor (x / 10^p)] for [x = m * 2^e]. *)
Definition floorDiv10 (m e p : Z) : Z :=
  let num := (m * 2 ^ Z.max e 0 * 10 ^ Z.max (- p) 0)%Z in
  let den := (2 ^ Z.max (- e) 0 * 10 ^ Z.max p 0)%Z in
  (num / den)%Z.

Fixpoint magnitude10 (fuel : nat) (m e : Z) (n : Z) : Z :=
  match fuel with
  | O => n
  | S fuel' =>
      if (floorDiv10 m e n =? 0)%Z then
        if (floorDiv10 m e (n - 1) =? 0)%Z then magnitude10 fuel' m e (n - 1) else n
      else magnitude10 fuel' m e (n + 1)
  end.

Fixpoint shortest (fuel : nat) (x : Num.number) (m e n : Z) (k : Z) : Z * Z :=
  match fuel with
  | O => (floorDiv10 m e (n - k), k)
  | S fuel' =>
      let lo := floorDiv10 m e (n - k) in
      if SFeqb (scale10 lo (n - k)) x then (lo, k)
      else if SFeqb (scale10 (lo + 1) (n - k)) x then ((lo + 1)%Z, k)
      else shortest fuel' x m e n (k + 1)%Z
  end.

Fixpoint decDigits (fuel : nat) (n : Z) (acc : jsstring) : jsstring :=
  match fuel with
  | O => acc
  | S fuel' =>
      let acc' := (0x30 + n mod 10)%Z :: acc in
      if (n / 10 =? 0)%Z then acc' else decDigits fuel' (n / 10)%Z acc'
  end.

Definition intString (n : Z) : jsstring :=
  (if (n <? 0)%Z then jstr "-" else []) ++ decDigits (S (Z.to_nat (Z.log2 (Z.abs n)))) (Z.abs n) [].

Definition toString (x : Num.number) : jsstring :=
  match x with
  | S754_nan => jstr "NaN"
  | S754_zero _ => jstr "0"
  | S754_infinity s => (if s then jstr "-" else []) ++ jstr "Infinity"
  | S754_finite sg mx ex =>
      let a := SFabs x in
      let n := magnitude10 700 (Zpos mx) ex 0 in
      let '(s, k) := shortest 17 a (Zpos mx) ex n 1 in
      let '(s, n) := if (10 ^ k <=? s)%Z then ((s / 10)%Z, (n + 1)%Z) else (s, n) in
      let ds := intString s in
      let k := Z.of_nat (length ds) in
      let body :=
        if (k <=? n)%Z && (n <=? 21)%Z then ds ++ replicate (Z.to_nat (n - k)) 0x30%Z
        else if (0 <? n)%Z && (n <=? 21)%Z then
          take (Z.to_nat n) ds ++ jstr "." ++ drop (Z.to_nat n) ds
        else if (-6 <? n)%Z && (n <=? 0)%Z then
          jstr "0." ++ replicate (Z.to_nat (- n)) 0x30%Z ++ ds
        else
          let ex10 := (n - 1)%Z in
          let mant := match ds with d :: [] => [d] | d :: rest => d :: jstr "." ++ rest | [] => [] end in
          mant ++ jstr "e" ++ (if (0 <=? ex10)%Z then jstr "+" else []) ++ intString ex10 in
      (if sg then jstr "-" else []) ++ body
  end.

(** The colour keywords the examples use; any other name leaves a canvas
    black. *)
Definition cssColor (name : jsstring) : Z * Z * Z :=
  let n := map asciiLower name in
  if bool_decide (n = jstr "red") then (255, 0, 0)%Z
  else if bool_decide (n = jstr "hotpink") then (255, 105, 180)%Z
  else if bool_decide (n = jstr "white") then (255, 255, 255)%Z
  else (0, 0, 0)%Z.

Definition lower (s : jsstring) : jsstring := map asciiLower s.

#[export] Instance host : Host := {|
  toLowerCase := lower;
  Math_cos := cos;
  Math_sin := sin;
  Math_cbrt := cbrt;
  Math_pow := pow;
  Math_atan2 := atan2;
  numberToString := toString;
  hasDocument := true;
  namedColorPixel := cssColor;
  devicePixelRatio := Some 1%num;
  filterBlur := true;
|}.

(** The same engine where there is no [document] and no [window]. *)
Definition headless : Host := {|
  toLowerCase := lower;
  Math_cos := cos;
  Math_sin := sin;
  Math_cbrt := cbrt;
  Math_pow := pow;
  Math_atan2 := atan2;
  numberToString := toString;
  hasDocument := false;
  namedColorPixel := cssColor;
  devicePixelRatio := None;
  filterBlur := false;
|}.

End RefHost.

(** ** Vocabulary of the statements *)

(** The canonical mantissa of a positive integer of at most 53 bits. *)
Definition mant53 (p : positive) : positive :=
  match (53 - Zpos (digits2_pos p))%Z with
  | Zpos k => Pos.iter xO p k
  | _ => p
  end.

(** [0 <= x < 1], as the comparisons of doubles decide it. *)
Definition unitInterval (x : Num.number) : Prop :=
  Num.leb 0%num x = true /\ Num.ltb x 1%num = true.

(** A string that does not begin with white space. *)
Definition noLeadingSpace (s : jsstring) : Prop :=
  match s with
  | c :: _ => isWhiteSpace c = false
  | [] => True
  end.

(** What the theorems below use of [String.prototype.toLowerCase]: it is
    idempotent, it commutes with [trim] (white space has no case and no
    cased character becomes white space), and on ASCII it is the ASCII
    mapping. *)
Definition unicodeLowerCase `{Host} : Prop :=
  (forall s, toLowerCase (toLowerCase s) = toLowerCase s)
  /\ (forall s, toLowerCase (trim s) = trim (toLowerCase s))
  /\ (forall s, forallb isAscii s = true -> toLowerCase s = map asciiLower s).

(** Tones that are absent, or of which none parses. *)
Definition noUsableTone `{Host} (tones : option (list jsstring)) : Prop :=
  match tones with
  | None => True
  | Some ts => Forall (fun t => parseTone t = None) ts
  end.

(** The hue every entry of a monotone palette has. *)
Definition monotoneHue (seeds : list Num.number) : Num.number :=
  (((seedAt seeds 0 * 360) %% 360) + 360) %% 360.

(** A palette one colour short of what the gradient needs. *)
Definition threeColours : list OklchColor :=
  [ {| Oklch.l := 0.7%num; Oklch.c := 0.2%num; Oklch.h := 350%num |};
    {| Oklch.l := 0.3%num; Oklch.c := 0.1%num; Oklch.h := 350%num |};
    {| Oklch.l := 0.25%num; Oklch.c := 0.15%num; Oklch.h := 350%num |} ].

(** A loop keeps an invariant, up to the faults [P] allows. *)
Definition holds {A} (P : fault -> Prop) (I : A -> Prop) (res : result A) : Prop :=
  match res with
  | Ok a => I a
  | Fail f => P f
  end.

(** The bytes of the buffer and its pixels, four bytes each. *)
Definition byteAt (d : list Z) (i : Z) : option Z := d !! Z.to_nat i.

(** Pixel [k] has the colour [c] and is opaque. *)
Definition pixelIs (d : list Z) (k : Z) (c : Dither.Rgb) : Prop :=
  byteAt d (4 * k) = Some (Dither.r c)
  /\ byteAt d (4 * k + 1) = Some (Dither.g c)
  /\ byteAt d (4 * k + 2) = Some (Dither.b c)
  /\ byteAt d (4 * k + 3) = Some 255.

(** A buffer of [N] pixels, each of them [A] or [B] and opaque. *)
Definition twoTone (A B : Dither.Rgb) (N : Z) (d : list Z) : Prop :=
  Z.of_nat (length d) = 4 * N
  /\ forall k, 0 <= k < N -> pixelIs d k A \/ pixelIs d k B.

(** A buffer of [N] pixels whose first [i] are [B]. *)
Definition filledTo (B : Dither.Rgb) (N : Z) (i : nat) (d : list Z) : Prop :=
  Z.of_nat (length d) = 4 * N
  /\ forall k, 0 <= k < Z.of_nat i -> pixelIs d k B.

(** The two colours of the palette of ["satoshi"], #00d4ae and #004832. *)
Definition accent : Dither.Rgb := {| Dither.r := 0; Dither.g := 212; Dither.b := 174 |}.
Definition backdrop : Dither.Rgb := {| Dither.r := 0; Dither.g := 72; Dither.b := 50 |}.

(** The same options with another palette. *)
Definition withColors (opts : Dither.DitherOptions) (cs : list OklchColor) : Dither.DitherOptions :=
  {| Dither.size := Dither.size opts;
     Dither.colors := cs;
     Dither.dotScale := Dither.dotScale opts;
     Dither.animated := Dither.animated opts;
     Dither.seeds := Dither.seeds opts |}.

(** The operations of [renderDither] before the frame. *)
Definition setupOps `{Host} (opts : Dither.DitherOptions) : list CanvasOp :=
  [SetWidth (Dither.sizePx opts); SetHeight (Dither.sizePx opts);
   SetStyleWidth (px (Dither.size opts)); SetStyleHeight (px (Dither.size opts))].

(** The conditions under which a frame is drawn to its end: the surface is
    a square of positive side whose image data fit a typed array, and the
    two loops bounded by the cell size and by the grid size end. *)
Definition drawable `{Host} (opts : Dither.DitherOptions) : Prop :=
  0 < Num.truncZ (Dither.sizePx opts)
  /\ Num.truncZ (Dither.sizePx opts) * Num.truncZ (Dither.sizePx opts) * 4 < 2 ^ 53
  /\ loopCount (Dither.dotScalePx opts) <> Fail Diverges
  /\ loopCount (Dither.gridSize opts) <> Fail Diverges.

(** What a static frame is: the buffer is filled with the colour of palette
    index 1, the colour of index 0 is painted over it cell by cell, the
    result is put on the canvas, and every pixel of it is opaque and is one
    of the two colours. *)
Definition staticFrame `{Host} (opts : Dither.DitherOptions) : Prop :=
  exists c0 c1 d0 cells d,
    Dither.colors opts !! 0%nat = Some c0
    /\ Dither.colors opts !! 1%nat = Some c1
    /\ let A := Dither.hexToRgb (oklchToHex c0) in
       let B := Dither.hexToRgb (oklchToHex c1) in
       let n := Num.truncZ (Dither.sizePx opts) in
       Dither.fillBackground n B (replicate (Z.to_nat (n * n * 4)) 0) = Ok d0
       /\ (forall k, 0 <= k < n * n -> pixelIs d0 k B)
       /\ Dither.paintGrid
            (Dither.frameValue (Dither.seeds opts) false (Dither.gridSize opts) 0%num)
            n (Dither.dotScalePx opts) cells A d0 = Ok d
       /\ Dither.renderDither opts = Ok (None, setupOps opts ++ [PutImageData n d])
       /\ Z.of_nat (length d) = 4 * (n * n)
       /\ (forall k, 0 <= k < n * n -> pixelIs d k A \/ pixelIs d k B).

(** The value a call returned, [dflt] when it threw. *)
Definition valueOr {A} (dflt : A) (res : result A) : A :=
  match res with
  | Ok a => a
  | Fail _ => dflt
  end.

(** The seeds of a hash on the reference host. *)
Definition seedsOf (hash : jsstring) (count : Z) : list Num.number :=
  valueOr [] (hashToSeeds (H := RefHost.host) hash count).

(** The options [createHashvatar] builds for the hash ["satoshi"] in dither
    mode at a given size. *)
Definition satoshi (size : Num.number) (animated : bool) : Dither.DitherOptions :=
  {| Dither.size := size;
     Dither.colors := valueOr [] (hashToColors (H := RefHost.host) (jstr "satoshi") None 2);
     Dither.dotScale := None;
     Dither.animated := animated;
     Dither.seeds := seedsOf (jstr "satoshi") 4 |}.

(** The pixels of a buffer. *)
Fixpoint pixels (d : list Z) : list (Z * Z * Z * Z) :=
  match d with
  | r :: g :: b :: a :: rest => (r, g, b, a) :: pixels rest
  | _ => []
  end.

(** The image data a render put on the canvas last. *)
Definition frameData (res : result (option Handle * list CanvasOp)) : option (list Z) :=
  match res with
  | Ok (_, ops) =>
      match last ops with
      | Some (PutImageData _ d) => Some d
      | _ => None
      end
  | Fail _ => None
  end.

(** The distinct colours of that frame. *)
Definition frameColours (res : result (option Handle * list CanvasOp))
    : option (list (Z * Z * Z * Z)) :=
  (fun d => remove_dups (pixels d)) <$> frameData res.



(** A byte. *)
Definition isByte (v : Z) : Prop := 0 <= v <= 255.

#[local] Instance number_eq_dec : EqDecision spec_float.
Proof. solve_decision. Defined.

(** The levels of the Bayer matrix: [k / 64] for [k] from 0 to 63. *)
Definition bayerLevels : list Num.number := map (fun k => (Num.ofZ k / 64)%num) (seqZ 0 64).



(** The same options with the colours and the seeds after the fourth
    dropped. *)
Definition firstFour (opts : Gradient.GradientOptions) : Gradient.GradientOptions :=
  {| Gradient.size := Gradient.size opts;
     Gradient.colors := take 4 (Gradient.colors opts);
     Gradient.animated := Gradient.animated opts;
     Gradient.seeds := take 4 (Gradient.seeds opts) |}.



(** The string [oklchToHex] makes of three channel numbers. *)
Definition hexOfChannels (vs : list Num.number) : jsstring :=
  0x23 :: flat_map (fun v => padStart2 (toString16 v)) vs.

Section Channels.
Context `{Host}.
Local Open Scope num_scope.

(** The three numbers [oklchToHex] prints: the rounded sRGB channels. *)
Definition srgbChannels (col : OklchColor) : list Num.number :=
  let '(Oklch.mk l c h) := col in
  let hRad := h * Math_PI / 180 in
  let a := c * Math_cos hRad in
  let b := c * Math_sin hRad in
  let lm := l + 0.3963377774 * a + 0.2158037573 * b in
  let mm := l - 0.1055613458 * a - 0.0638541728 * b in
  let sm := l - 0.0894841775 * a - 1.2914855480 * b in
  let L3 := lm * lm * lm in
  let M3 := mm * mm * mm in
  let S3 := sm * sm * sm in
  let rl := 4.0767416621 * L3 - 3.3077115913 * M3 + 0.2309699292 * S3 in
  let gl := -1.2684380046 * L3 + 2.6097574011 * M3 - 0.3413193965 * S3 in
  let bl := -0.0041960863 * L3 - 0.7034186147 * M3 + 1.7076147010 * S3 in
  map (fun v => Num.round (toSrgb v * 255)) [rl; gl; bl].

End Channels.

(** What [parseInt16] makes of a run of digits. *)
Definition fromRun (run : option Z) : Num.number :=
  match run with
  | None => Num.nan
  | Some 0 => Num.pzero
  | Some n => Num.ofZ n
  end.

(** sRGB bytes taken to OKLCH and back through the hex string. *)
Definition roundTrip `{Host} (rgb : Z * Z * Z) : Z * Z * Z :=
  let '(r, g, b) := rgb in
  hexToRgb (oklchToHex (rgbToOklch (Num.ofZ r) (Num.ofZ g) (Num.ofZ b))).

(** Two colours that differ by at most 1 in every channel. *)
Definition withinOne (p q : Z * Z * Z) : bool :=
  let '(r, g, b) := p in
  let '(r', g', b') := q in
  (Z.abs (r - r') <=? 1) && (Z.abs (g - g') <=? 1) && (Z.abs (b - b') <=? 1).

(** The corners, the edge midpoints and the centre of the colour cube. *)
Definition sampleColours : list (Z * Z * Z) :=
  r ← [0; 128; 255]; g ← [0; 128; 255]; b ← [0; 128; 255]; [(r, g, b)].

(** Pixel [k] of [d] has the colour [A] and the opacity it had in [d0]. *)
Definition paintedPx (A : Dither.Rgb) (d0 d : list Z) (k : Z) : Prop :=
  byteAt d (4 * k) = Some (Dither.r A)
  /\ byteAt d (4 * k + 1) = Some (Dither.g A)
  /\ byteAt d (4 * k + 2) = Some (Dither.b A)
  /\ byteAt d (4 * k + 3) = byteAt d0 (4 * k + 3).

(** Pixel [k] of [d] is as it was in [d0]. *)
Definition keptPx (d0 d : list Z) (k : Z) : Prop :=
  forall j, 0 <= j < 4 -> byteAt d (4 * k + j) = byteAt d0 (4 * k + j).

(** [d] is the [n] by [n] buffer [d0] with the pixels [(x, y)] that
    satisfy [Q] painted in [A] and the others untouched. *)
Definition paintedWhere (A : Dither.Rgb) (n : Z) (d0 : list Z) (Q : Z -> Z -> Prop)
    (d : list Z) : Prop :=
  length d = length d0
  /\ forall x y, 0 <= x < n -> 0 <= y < n ->
       (Q x y /\ paintedPx A d0 d (y * n + x)) \/ (~ Q x y /\ keptPx d0 d (y * n + x)).

(** The cell that covers pixel coordinate [x] when cells are [s] wide: the
    first cell, number 0, is the padding, off the canvas. *)
Definition cellOf (s x : Z) : Z := x / s + Dither.padding.

(** A cell of the grid whose value does not exceed its Bayer level: the
    cells [paintGrid] does not skip. *)
Definition accentCell (value : Z -> Z -> Num.number) (cells gx gy : Z) : Prop :=
  gx < cells /\ gy < cells /\ Num.gtb (value gx gy) (Dither.bayerAt gy gx) = false.

(** The static frame, pixel by pixel: the pixel [(x, y)] has the accent
    colour when the cell that covers it is a cell of the grid whose eased
    value does not exceed its Bayer level, and the background colour
    otherwise.  [s] is the side of a cell and [cells] the side of the grid. *)
Definition thresholdFrame `{Host} (opts : Dither.DitherOptions) (s cells : Z) : Prop :=
  exists c0 cB d,
    Dither.colors opts !! 0%nat = Some c0
    /\ Dither.colors opts !! Z.to_nat (Dither.paletteIndexB (Dither.colors opts)) = Some cB
    /\ let A := Dither.hexToRgb (oklchToHex c0) in
       let B := Dither.hexToRgb (oklchToHex cB) in
       let n := Num.truncZ (Dither.sizePx opts) in
       let value := Dither.frameValue (Dither.seeds opts) false (Dither.gridSize opts) 0%num in
       Dither.renderDither opts = Ok (None, setupOps opts ++ [PutImageData n d])
       /\ Z.of_nat (length d) = 4 * (n * n)
       /\ forall x y, 0 <= x < n -> 0 <= y < n ->
            (accentCell value cells (cellOf s x) (cellOf s y) /\ pixelIs d (y * n + x) A)
            \/ (~ accentCell value cells (cellOf s x) (cellOf s y) /\ pixelIs d (y * n + x) B).

(** A double of the unit interval: a valid binary64 value [x] with
    [0 <= x < 1]. *)
Definition unitDouble (x : Num.number) : Prop :=
  valid_binary 53 1024 x = true /\ unitInterval x.

(** A tone list that is a JavaScript array: fewer than 2^32 elements. *)
Definition arrayOfTones (tones : option (list jsstring)) : Prop :=
  match tones with
  | Some ts => Z.of_nat (length ts) < 2 ^ 32
  | None => True
  end.









(** * Properties *)

(** ** Exactness of the arithmetic that makes a seed *)

Lemma digits2_pos_iter_xO (p k : positive) :
  Zpos (digits2_pos (Pos.iter xO p k)) = Zpos (digits2_pos p) + Zpos k.
Proof.
  induction k as [|k IH] using Pos.peano_ind.
  - simpl. lia.
  - rewrite Pos.iter_succ. simpl digits2_pos. lia.
Qed.

Lemma digits2_pos_lower (p : positive) : 2 ^ (Zpos (digits2_pos p) - 1) <= Zpos p.
Proof.
  induction p as [p IH|p IH|]; simpl digits2_pos.
  - replace (Zpos (Pos.succ (digits2_pos p)) - 1) with (Z.succ (Zpos (digits2_pos p) - 1)) by lia.
    rewrite Z.pow_succ_r by lia. lia.
  - replace (Zpos (Pos.succ (digits2_pos p)) - 1) with (Z.succ (Zpos (digits2_pos p) - 1)) by lia.
    rewrite Z.pow_succ_r by lia. lia.
  - simpl. lia.
Qed.

Lemma digits2_pos_le (p : positive) (k : Z) :
  0 <= k -> Zpos p < 2 ^ k -> Zpos (digits2_pos p) <= k.
Proof.
  intros Hk Hp. destruct (Z_le_gt_dec (Zpos (digits2_pos p)) k) as [|Hgt]; [assumption|].
  pose proof (digits2_pos_lower p) as Hl.
  assert (2 ^ k <= 2 ^ (Zpos (digits2_pos p) - 1)) by (apply Z.pow_le_mono_r; lia).
  lia.
Qed.

Lemma round_aux_canonical (s : bool) (m : positive) (e : Z) :
  Zpos (digits2_pos m) = 53 -> -1074 <= e <= 971 ->
  binary_round_aux 53 1024 s (Zpos m) e loc_Exact = S754_finite s m e.
Proof.
  intros Hd He. unfold binary_round_aux, shr_fexp, fexp, emin.
  cbn [Zdigits2 shr_record_of_loc]. rewrite Hd.
  replace (Z.max (53 + e - 53) (3 - 1024 - 53) - e) with 0 by lia.
  cbn [shr shr_m loc_of_shr_record round_nearest_even Zdigits2 shr_record_of_loc]. rewrite Hd.
  replace (Z.max (53 + e - 53) (3 - 1024 - 53) - e) with 0 by lia.
  cbn [shr shr_m].
  replace (e <=? 1024 - 53) with true by (symmetry; apply Z.leb_le; lia).
  reflexivity.
Qed.

Lemma mant53_digits (p : positive) :
  Zpos (digits2_pos p) <= 53 -> Zpos (digits2_pos (mant53 p)) = 53.
Proof.
  intros Hd. unfold mant53.
  destruct (53 - Zpos (digits2_pos p)) as [|k|k] eqn:E; try lia.
  rewrite digits2_pos_iter_xO. lia.
Qed.

Lemma ofZ_pos (p : positive) :
  Zpos (digits2_pos p) <= 53 ->
  Num.ofZ (Zpos p) = S754_finite false (mant53 p) (Zpos (digits2_pos p) - 53).
Proof.
  intros Hd. unfold Num.ofZ, binary_normalize, binary_round, shl_align, fexp, emin, Num.prec, Num.emax.
  pose proof (mant53_digits p Hd) as Hm. unfold mant53 in *.
  replace (Z.max (Zpos (digits2_pos p) + 0 - 53) (3 - 1024 - 53) - 0)
    with (- (53 - Zpos (digits2_pos p))) by lia.
  replace (Z.max (Zpos (digits2_pos p) + 0 - 53) (3 - 1024 - 53))
    with (Zpos (digits2_pos p) - 53) by lia.
  destruct (53 - Zpos (digits2_pos p)) as [|k|k] eqn:E; try lia; cbv beta iota delta [Z.opp].
  - rewrite round_aux_canonical by lia. f_equal. lia.
  - rewrite round_aux_canonical by lia. reflexivity.
Qed.

Lemma div_two32 (m : positive) (e : Z) :
  Zpos (digits2_pos m) = 53 -> -52 <= e <= 0 ->
  Num.div (S754_finite false m e) (Num.ofZ 4294967296) = S754_finite false m (e - 32).
Proof.
  intros Hd He.
  change (Num.ofZ 4294967296) with (S754_finite false 4503599627370496 (-20)).
  unfold Num.div, SFdiv, SFdiv_core_binary, fexp, emin, Num.prec, Num.emax.
  cbn [Zdigits2]. rewrite Hd.
  change (Zpos (digits2_pos 4503599627370496)) with 53.
  replace (Z.min (Z.max (53 + e - (53 + -20) - 53) (3 - 1024 - 53)) (e - -20)) with (e - 33) by lia.
  replace (e - -20 - (e - 33)) with 53 by lia.
  assert (Hq : Z.div_eucl (Z.shiftl (Zpos m) 53) 4503599627370496 = (Zpos m~0, 0)).
  { rewrite Z.shiftl_mul_pow2 by lia.
    pose proof (Z.div_eucl_eq (Zpos m * 2 ^ 53) 4503599627370496 ltac:(lia)) as Heq.
    pose proof (Z.mod_pos_bound (Zpos m * 2 ^ 53) 4503599627370496 ltac:(lia)) as Hb.
    unfold Z.modulo, Z.div in *.
    destruct (Z.div_eucl (Zpos m * 2 ^ 53) 4503599627370496) as [q r].
    change (2 ^ 53) with (2 * 4503599627370496) in Heq.
    assert (r = 0) by lia. assert (q = 2 * Zpos m) by lia. subst. reflexivity. }
  rewrite Hq. cbn [xorb].
  change (new_location 4503599627370496 0) with loc_Exact.
  unfold binary_round_aux, shr_fexp, fexp, emin.
  cbn [Zdigits2 digits2_pos shr_record_of_loc]. 
  replace (Z.max (Zpos (Pos.succ (digits2_pos m)) + (e - 33) - 53) (3 - 1024 - 53) - (e - 33))
    with 1 by lia.
  cbn [shr SpecFloat.iter_pos shr_1 shr_m loc_of_shr_record round_nearest_even orb Zdigits2
       shr_record_of_loc].
  rewrite Hd.
  replace (Z.max (53 + (e - 33 + 1) - 53) (3 - 1024 - 53) - (e - 33 + 1)) with 0 by lia.
  cbn [shr shr_m].
  replace (e - 33 + 1 <=? 1024 - 53) with true by (symmetry; apply Z.leb_le; lia).
  f_equal. lia.
Qed.

(** What [rng_next] returns: a value of the unit interval. *)
Lemma unit_of_uint32 (u : Z) :
  0 <= u < 2 ^ 32 ->
  let x := Num.div (Num.ofZ u) (Num.ofZ 4294967296) in
  Num.leb 0%num x = true /\ Num.ltb x 1%num = true.
Proof.
  intros Hu. destruct u as [|p|p]; [split; reflexivity | | lia].
  assert (Hd : Zpos (digits2_pos p) <= 32) by (apply digits2_pos_le; lia).
  cbv zeta. rewrite ofZ_pos by lia.
  rewrite div_two32; [| apply mant53_digits; lia | lia].
  split; [reflexivity|].
  change 1%num with (S754_finite false 4503599627370496 (-52)).
  unfold Num.ltb, SFltb, SFcompare.
  replace (Zpos (digits2_pos p) - 53 - 32 ?= -52) with Lt; [reflexivity|].
  symmetry. apply Z.compare_lt_iff. lia.
Qed.

(** ** hashToSeeds *)

Lemma wrapU_range (z : Z) : 0 <= Int32.wrapU z < 2 ^ 32.
Proof. unfold Int32.wrapU. apply Z.mod_pos_bound. lia. Qed.

Lemma shr0_range (a : Z) : 0 <= Int32.shr a 0 < 2 ^ 32.
Proof.
  unfold Int32.shr. change (0 mod 32) with 0. rewrite Z.shiftr_0_r. apply wrapU_range.
Qed.


Lemma rng_draw_length (count : nat) (s : Z) : length (rng_draw count s) = count.
Proof.
  revert s. induction count as [|n IH]; intros s; [reflexivity|].
  cbn [rng_draw]. destruct (rng_next s) as [s' x]. cbn [length]. now rewrite IH.
Qed.


Lemma arrayLength_Ok (n : Z) : n < 2 ^ 32 -> arrayLength n = Ok (Z.to_nat n).
Proof. intros Hn. unfold arrayLength. now destruct (Z.leb_spec (2 ^ 32) n); [lia|]. Qed.

Lemma arrayLength_Fail (n : Z) : 2 ^ 32 <= n -> arrayLength n = Fail RangeError.
Proof. intros Hn. unfold arrayLength. now destruct (Z.leb_spec (2 ^ 32) n); [|lia]. Qed.

Lemma hashToSeeds_Ok `{Host} (s : jsstring) (n : Z) :
  n < 2 ^ 32 ->
  hashToSeeds s n = Ok (rng_draw (Z.to_nat n) (fnv1a (trim (toLowerCase s)))).
Proof. intros Hn. unfold hashToSeeds. now rewrite arrayLength_Ok. Qed.




(** ** Normalisation of the input of hashToSeeds *)

Lemma trimStart_noLeadingSpace (s : jsstring) : noLeadingSpace (trimStart s).
Proof.
  induction s as [|c s IH]; [exact I|].
  cbn [trimStart]. destruct (isWhiteSpace c) eqn:E; [exact IH | exact E].
Qed.

Lemma trimStart_fixed (s : jsstring) : noLeadingSpace s -> trimStart s = s.
Proof. destruct s as [|c s]; [reflexivity|]. cbn. now intros ->. Qed.

Lemma trimStart_snoc (s : jsstring) (x : Z) :
  isWhiteSpace x = false -> trimStart (s ++ [x]) = trimStart s ++ [x].
Proof.
  intros Hx. induction s as [|c s IH]; cbn [trimStart app].
  - now rewrite Hx.
  - destruct (isWhiteSpace c); [exact IH | reflexivity].
Qed.

Lemma trimEnd_noLeadingSpace (s : jsstring) : noLeadingSpace s -> noLeadingSpace (trimEnd s).
Proof.
  destruct s as [|x s]; [intros _; exact I|]. cbn [noLeadingSpace]. intros Hx.
  unfold trimEnd. cbn [rev]. rewrite trimStart_snoc by exact Hx.
  rewrite rev_app_distr. cbn. exact Hx.
Qed.

Lemma trim_idempotent (s : jsstring) : trim (trim s) = trim s.
Proof.
  unfold trim at 1.
  rewrite (trimStart_fixed (trim s)).
  - unfold trim, trimEnd. rewrite rev_involutive.
    now rewrite (trimStart_fixed _ (trimStart_noLeadingSpace _)).
  - apply trimEnd_noLeadingSpace, trimStart_noLeadingSpace.
Qed.

Lemma trimStart_map (f : Z -> Z) (s : jsstring) :
  (forall c, isWhiteSpace (f c) = isWhiteSpace c) ->
  trimStart (map f s) = map f (trimStart s).
Proof.
  intros Hf. induction s as [|c s IH]; [reflexivity|].
  cbn [map trimStart]. rewrite Hf. destruct (isWhiteSpace c); [exact IH | reflexivity].
Qed.

Lemma trim_map (f : Z -> Z) (s : jsstring) :
  (forall c, isWhiteSpace (f c) = isWhiteSpace c) ->
  trim (map f s) = map f (trim s).
Proof.
  intros Hf. unfold trim, trimEnd.
  now rewrite trimStart_map, <- map_rev, trimStart_map, map_rev.
Qed.

Lemma asciiLower_space (c : Z) : isWhiteSpace (asciiLower c) = isWhiteSpace c.
Proof.
  unfold asciiLower. destruct ((0x41 <=? c) && (c <=? 0x5A)) eqn:E; [|reflexivity].
  apply andb_true_iff in E as [H1 H2]. apply Z.leb_le in H1, H2.
  unfold isWhiteSpace.
  repeat match goal with
         | |- context [?a <=? ?b] => destruct (Z.leb_spec a b); try lia
         | |- context [?a =? ?b] => destruct (Z.eqb_spec a b); try lia
         end; reflexivity.
Qed.

Lemma asciiLower_idempotent (c : Z) : asciiLower (asciiLower c) = asciiLower c.
Proof.
  unfold asciiLower at 2 3.
  destruct (Z.leb_spec 0x41 c), (Z.leb_spec c 0x5A); cbn [andb]; unfold asciiLower;
    destruct (Z.leb_spec 0x41 (c + 32)), (Z.leb_spec (c + 32) 0x5A);
    destruct (Z.leb_spec 0x41 c), (Z.leb_spec c 0x5A); cbn [andb]; lia.
Qed.

Lemma refHost_unicodeLowerCase : unicodeLowerCase (H := RefHost.host).
Proof.
  repeat split; cbn [toLowerCase RefHost.host]; unfold RefHost.lower.
  - intros s. rewrite map_map. apply map_ext, asciiLower_idempotent.
  - intros s. symmetry. apply trim_map, asciiLower_space.
Qed.

(** C2.  Given the three facts about the engine's [toLowerCase],
    [hashToSeeds] gives the same seeds on [s] and on the trimmed, lowercased
    form of [s] (in either order of the two operations), and in particular
    on [" S "] and on ["s"]. *)
Theorem hashToSeeds_normalised `{Host} (laws : unicodeLowerCase) (s : jsstring) (n : Z) :
  hashToSeeds s n = hashToSeeds (toLowerCase (trim s)) n
  /\ hashToSeeds s n = hashToSeeds (trim (toLowerCase s)) n
  /\ hashToSeeds (jstr " S ") n = hashToSeeds (jstr "s") n.
Proof.
  destruct laws as (Hidem & Hcomm & Hascii).
  assert (Hnorm : forall t, trim (toLowerCase (trim (toLowerCase t))) = trim (toLowerCase t)).
  { intros t. now rewrite (Hcomm (toLowerCase t)), Hidem, trim_idempotent. }
  unfold hashToSeeds. repeat split.
  - now rewrite Hcomm, Hnorm.
  - now rewrite Hnorm.
  - rewrite !Hascii by reflexivity. reflexivity.
Qed.

Lemma hashToSeeds_normalised_witness :
  let s := jstr "  Vitalik.ETH " in
  hashToSeeds (H := RefHost.host) s 4 = hashToSeeds (H := RefHost.host) (RefHost.lower (trim s)) 4
  /\ hashToSeeds (H := RefHost.host) s 4 = hashToSeeds (H := RefHost.host) (trim (RefHost.lower s)) 4
  /\ hashToSeeds (H := RefHost.host) (jstr " S ") 4 = hashToSeeds (H := RefHost.host) (jstr "s") 4.
Proof.
  exact (hashToSeeds_normalised (H := RefHost.host) refHost_unicodeLowerCase
           (jstr "  Vitalik.ETH ") 4).
Defined.

(** ** parseTone *)

(** C3.  Malformed literals are not all rejected.  A token that starts with
    [#] is taken for a hex colour whatever follows: ["#zz"] parses to the
    colour of black instead of none.  A token shaped like [oklch(...)] whose
    chroma is a lone dot is accepted with a NaN chroma.  A literal of the
    wrong arity and an unknown form do give none. *)
Theorem parseTone_accepts_malformed `{Host} :
  parseTone (jstr "#zz") = Some (rgbToOklch 0%num 0%num 0%num)
  /\ parseTone (jstr "oklch(0.5 . 30)")
     = Some {| Oklch.l := 0.5%num; Oklch.c := Num.nan; Oklch.h := 30%num |}
  /\ parseTone (jstr "oklch(0.5 0.2)") = None
  /\ parseTone (jstr "not-a-color-xyz") = None.
Proof. repeat split; reflexivity. Qed.

(** ** generateColor and hashToColors *)

Lemma SFcompare_refl (k : Num.number) : Num.isNaN k = false -> SFcompare k k = Some Eq.
Proof.
  destruct k as [s|s| |s m e]; try discriminate; intros _; cbn [SFcompare].
  - reflexivity.
  - now destruct s.
  - rewrite Z.compare_refl, Pos.compare_cont_refl. now destruct s.
Qed.

Lemma SFcompare_antisym (x y : Num.number) (c : comparison) :
  SFcompare x y = Some c -> SFcompare y x = Some (CompOpp c).
Proof.
  destruct x as [sx|sx| |sx mx ex], y as [sy|sy| |sy my ey]; cbn [SFcompare];
    try discriminate; intros [= <-]; try (now destruct sx); try (now destruct sy);
    try (now destruct sx, sy).
  assert (Hm : Pos.compare_cont Eq my mx = CompOpp (Pos.compare_cont Eq mx my))
    by (symmetry; apply (Pos.compare_cont_antisym mx my Eq)).
  rewrite (Z.compare_antisym ex ey), Hm.
  destruct sx, sy, (ex ?= ey), (Pos.compare_cont Eq mx my); reflexivity.
Qed.

Lemma min_cap (x k : Num.number) :
  Num.isNaN k = false -> Num.isNaN (Num.min x k) = true \/ Num.leb (Num.min x k) k = true.
Proof.
  intros Hk. unfold Num.min. destruct (Num.isNaN x) eqn:Hx; [left; reflexivity|].
  rewrite Hk. cbn [orb]. right.
  assert (Hkk : Num.leb k k = true) by (unfold Num.leb, SFleb; now rewrite SFcompare_refl).
  unfold Num.ltb, Num.leb, SFltb, SFleb in *.
  destruct (SFcompare x k) as [[| |]|] eqn:E1.
  - rewrite (SFcompare_antisym _ _ _ E1). cbn [CompOpp].
    destruct (Num.signbit x); [now rewrite E1 | exact Hkk].
  - now rewrite E1.
  - rewrite (SFcompare_antisym _ _ _ E1). exact Hkk.
  - destruct x, k; discriminate.
Qed.

(** C5.  The cap does not hold for a NaN: the tone [oklch(0.5 . 30)] parses
    to a NaN chroma, the palette derived from it has NaN chromas, and a NaN
    is not at most 0.37. *)
Theorem hashToColors_NaN_chroma :
  exists c0 c1,
    hashToColors (H := RefHost.host) (jstr "x") (Some [jstr "oklch(0.5 . 30)"]) 2 = Ok [c0; c1]
    /\ Oklch.c c0 = Num.nan /\ Oklch.c c1 = Num.nan
    /\ Num.leb (Oklch.c c0) 0.37%num = false /\ Num.leb (Oklch.c c1) 0.37%num = false.
Proof.
  eexists _, _. split; [vm_compute; reflexivity|]. repeat split; reflexivity.
Qed.

Lemma omap_all_None {A B} (f : A -> option B) (xs : list A) :
  Forall (fun x => f x = None) xs -> omap f xs = [].
Proof. induction 1 as [|x xs Hx _ IH]; [reflexivity|]. cbn. now rewrite Hx. Qed.

Lemma mapM_total {A B} (f : A -> option B) (g : A -> B) (xs : list A) :
  (forall x, f x = Some (g x)) -> mapM f xs = Some (map g xs).
Proof.
  intros Hf. induction xs as [|x xs IH]; [reflexivity|]. cbn. now rewrite Hf, IH.
Qed.

(** C6.  When no tone is supplied, or none of the supplied tones parses,
    [hashToColors] returns [count] colours and every one of them has the
    hue derived from the first seed; an entry has no other component than
    lightness and chroma to differ by.  (The call returns when the array of
    [count * 3] seeds can be created, and only then.) *)
Theorem hashToColors_monotone `{Host} (hash : jsstring) (tones : option (list jsstring))
    (count : Z) :
  noUsableTone tones ->
  (count * 3 < 2 ^ 32 ->
   exists seeds palette,
     hashToSeeds hash (count * 3) = Ok seeds
     /\ hashToColors hash tones count = Ok palette
     /\ length palette = Z.to_nat count
     /\ Forall (fun col => Oklch.h col = monotoneHue seeds) palette)
  /\ (2 ^ 32 <= count * 3 -> hashToColors hash tones count = Fail RangeError).
Proof.
  intros Htones. split.
  2:{ intros Hbig. unfold hashToColors, hashToSeeds.
      rewrite (arrayLength_Fail (count * 3)) by exact Hbig. reflexivity. }
  intros Hcount. unfold hashToColors. rewrite hashToSeeds_Ok by exact Hcount.
  set (seeds := rng_draw _ _). exists seeds. cbn [mbind result_bind].
  assert (Hlist :
    match fmap (M := option) (fun ts => omap parseTone ts) tones with
    | Some ((_ :: _) as p) => Some p
    | _ => None
    end = None).
  { destruct tones as [ts|]; [|reflexivity]. cbn. now rewrite (omap_all_None _ _ Htones). }
  rewrite Hlist. rewrite arrayLength_Ok by lia. cbn [mbind result_bind].
  set (gen := fun i : nat =>
    let '(l, c) :=
      if (0 <? i)%nat
      then ((0.18 + seedAt seeds (i * 3 + 2) * 0.20)%num, (0.08 + seedAt seeds (i * 3 + 1) * 0.12)%num)
      else ((0.55 + seedAt seeds (i * 3 + 1) * 0.22)%num, (0.18 + seedAt seeds (i * 3 + 2) * 0.18)%num) in
    {| Oklch.l := l; Oklch.c := Num.min c 0.37%num; Oklch.h := monotoneHue seeds |}).
  exists (map gen (seq 0 (Z.to_nat count))). split; [reflexivity|]. split; [|split].
  - erewrite mapM_total; [reflexivity|].
    intros i. unfold generateColor, gen. now destruct (0 <? i)%nat.
  - now rewrite length_map, length_seq.
  - apply Forall_map, Forall_forall. intros i _. unfold gen.
    now destruct (0 <? i)%nat.
Qed.

Lemma hashToColors_monotone_witness :
  exists seeds palette,
    hashToSeeds (H := RefHost.host) (jstr "vitalik.eth") (4 * 3) = Ok seeds
    /\ hashToColors (H := RefHost.host) (jstr "vitalik.eth") (Some [jstr "not-a-color-xyz"]) 4
       = Ok palette
    /\ length palette = Z.to_nat 4
    /\ Forall (fun col => Oklch.h col = monotoneHue seeds) palette.
Proof.
  apply (hashToColors_monotone (H := RefHost.host)); [|lia].
  constructor; [reflexivity | constructor].
Defined.

(** ** renderGradient *)

(** C4.  With fewer than four colours, whatever the size, the seeds and the
    animation flag, [renderGradient] returns no handle and performs no
    operation on the canvas. *)
Theorem renderGradient_guard `{Host} (opts : Gradient.GradientOptions) :
  (length (Gradient.colors opts) < 4)%nat ->
  Gradient.renderGradient opts = Ok (None, []).
Proof.
  intros Hlen. unfold Gradient.renderGradient.
  now replace (length (Gradient.colors opts) <? 4)%nat with true
    by (symmetry; apply Nat.ltb_lt; exact Hlen).
Qed.

Lemma renderGradient_guard_witness :
  Gradient.renderGradient (H := RefHost.host)
    {| Gradient.size := 64%num; Gradient.colors := threeColours;
       Gradient.animated := true;
       Gradient.seeds := seedsOf (jstr "vitalik.eth") 4 |}
  = Ok (None, []).
Proof. apply (renderGradient_guard (H := RefHost.host)). cbn. lia. Defined.

(** With four colours the same call does act on the canvas. *)
Example renderGradient_four_colours :
  Gradient.renderGradient (H := RefHost.host)
    {| Gradient.size := 64%num;
       Gradient.colors := threeColours ++ threeColours;
       Gradient.animated := true;
       Gradient.seeds := seedsOf (jstr "vitalik.eth") 4 |}
  <> Ok (None, []).
Proof. vm_compute. discriminate. Qed.

(** ** renderDither: the image buffer *)

Lemma holds_bind {A B} (P : fault -> Prop) (I : A -> Prop) (J : B -> Prop)
    (m : result A) (k : A -> result B) :
  holds P I m -> (forall a, I a -> holds P J (k a)) -> holds P J (a ← m; k a).
Proof. destruct m as [a|f]; cbn; auto. Qed.

Lemma forEach_holds {A B} (P : fault -> Prop) (I : A -> Prop) (xs : list B)
    (body : A -> B -> result A) (a : A) :
  (forall a x, In x xs -> I a -> holds P I (body a x)) ->
  I a -> holds P I (forEach xs body a).
Proof.
  revert a. induction xs as [|x xs IH]; intros a Hbody Ha; [exact Ha|].
  cbn [forEach]. apply holds_bind with (I := I).
  - apply Hbody; [now left | exact Ha].
  - intros a' Ha'. apply IH; [|exact Ha']. intros a0 x0 Hin. apply Hbody. now right.
Qed.

(** The same, with an invariant that counts the turns. *)
Lemma forEach_counted_from {A B} (P : fault -> Prop) (I : nat -> A -> Prop) (xs : list B)
    (body : A -> B -> result A) (k : nat) (a : A) :
  (forall i a x, xs !! i = Some x -> I (k + i)%nat a -> holds P (I (S (k + i))) (body a x)) ->
  I k a -> holds P (I (k + length xs)%nat) (forEach xs body a).
Proof.
  revert k a. induction xs as [|x xs IH]; intros k a Hstep Ha.
  - cbn. now rewrite Nat.add_0_r.
  - cbn [forEach length]. apply holds_bind with (I := I (S k)).
    + specialize (Hstep 0%nat a x eq_refl). rewrite Nat.add_0_r in Hstep. now apply Hstep.
    + intros a' Ha'. replace (k + S (length xs))%nat with (S k + length xs)%nat by lia.
      apply IH; [|exact Ha'].
      intros i a0 x0 Hi H0. replace (S k + i)%nat with (k + S i)%nat in * by lia.
      now apply (Hstep (S i)).
Qed.

Lemma forEach_counted {A B} (P : fault -> Prop) (I : nat -> A -> Prop) (xs : list B)
    (body : A -> B -> result A) (a : A) :
  (forall i a x, xs !! i = Some x -> I i a -> holds P (I (S i)) (body a x)) ->
  I 0%nat a -> holds P (I (length xs)) (forEach xs body a).
Proof. intros Hbody Ha. now apply (forEach_counted_from P I xs body 0%nat a). Qed.

Lemma store_Ok (d : list Z) (i v : Z) :
  0 <= i < Z.of_nat (length d) -> Dither.store d i v = Ok (<[Z.to_nat i := v]> d).
Proof.
  intros Hi. unfold Dither.store.
  replace (0 <=? i) with true by (symmetry; apply Z.leb_le; lia).
  now replace (i <? Z.of_nat (length d)) with true by (symmetry; apply Z.ltb_lt; lia).
Qed.

Lemma byteAt_insert_eq (d : list Z) (i v : Z) :
  0 <= i < Z.of_nat (length d) -> byteAt (<[Z.to_nat i := v]> d) i = Some v.
Proof. intros Hi. unfold byteAt. apply list_lookup_insert_eq. lia. Qed.

Lemma byteAt_insert_ne (d : list Z) (i j v : Z) :
  0 <= i -> 0 <= j -> i <> j -> byteAt (<[Z.to_nat i := v]> d) j = byteAt d j.
Proof. intros Hi Hj Hne. unfold byteAt. apply list_lookup_insert_ne. lia. Qed.

(** The three stores of the accent colour at pixel [j]. *)
Lemma paint_pixel (A B : Dither.Rgb) (N j : Z) (d : list Z) :
  twoTone A B N d -> 0 <= j < N ->
  exists d',
    (d1 ← Dither.store d (j * 4) (Dither.r A);
     d2 ← Dither.store d1 (j * 4 + 1) (Dither.g A);
     Dither.store d2 (j * 4 + 2) (Dither.b A)) = Ok d'
    /\ twoTone A B N d'.
Proof.
  intros [Hlen Hpix] Hj.
  eexists. split.
  - rewrite store_Ok by lia. cbn.
    rewrite store_Ok by (rewrite length_insert; lia). cbn.
    rewrite store_Ok by (rewrite !length_insert; lia). reflexivity.
  - split; [now rewrite !length_insert|].
    intros k Hk. destruct (Z.eq_dec k j) as [->|Hne].
    + left. assert (Ha : byteAt d (4 * j + 3) = Some 255)
        by (destruct (Hpix j Hj) as [(_ & _ & _ & H3)|(_ & _ & _ & H3)]; exact H3).
      unfold pixelIs. repeat split.
      * rewrite !byteAt_insert_ne by lia. replace (4 * j) with (j * 4) by lia.
        apply byteAt_insert_eq. lia.
      * rewrite byteAt_insert_ne by lia. replace (4 * j + 1) with (j * 4 + 1) by lia.
        apply byteAt_insert_eq. rewrite length_insert. lia.
      * replace (4 * j + 2) with (j * 4 + 2) by lia.
        apply byteAt_insert_eq. rewrite !length_insert. lia.
      * now rewrite !byteAt_insert_ne by lia.
    + assert (Hsame : forall o, 0 <= o < 4 ->
        byteAt (<[Z.to_nat (j * 4 + 2) := Dither.b A]>
                 (<[Z.to_nat (j * 4 + 1) := Dither.g A]>
                    (<[Z.to_nat (j * 4) := Dither.r A]> d))) (4 * k + o)
        = byteAt d (4 * k + o))
        by (intros o Ho; now rewrite !byteAt_insert_ne by lia).
      pose proof (Hsame 0 ltac:(lia)) as H0. rewrite Z.add_0_r in H0.
      unfold pixelIs. rewrite H0, !Hsame by lia. now apply Hpix.
Qed.

(** The four stores of the background colour at pixel [k]. *)
Lemma fill_pixel (B : Dither.Rgb) (N : Z) (i : nat) (d : list Z) :
  filledTo B N i d -> Z.of_nat i < N ->
  exists d',
    (d1 ← Dither.store d (4 * Z.of_nat i) (Dither.r B);
     d2 ← Dither.store d1 (4 * Z.of_nat i + 1) (Dither.g B);
     d3 ← Dither.store d2 (4 * Z.of_nat i + 2) (Dither.b B);
     Dither.store d3 (4 * Z.of_nat i + 3) 255) = Ok d'
    /\ filledTo B N (S i) d'.
Proof.
  intros [Hlen Hpix] Hi. set (j := Z.of_nat i) in *.
  eexists. split.
  - rewrite store_Ok by lia. cbn.
    rewrite store_Ok by (rewrite length_insert; lia). cbn.
    rewrite store_Ok by (rewrite !length_insert; lia). cbn.
    rewrite store_Ok by (rewrite !length_insert; lia). reflexivity.
  - split; [now rewrite !length_insert|].
    intros k Hk. destruct (Z.eq_dec k j) as [->|Hne].
    + unfold pixelIs. repeat split.
      * rewrite !byteAt_insert_ne by lia. apply byteAt_insert_eq. lia.
      * rewrite !byteAt_insert_ne by lia. apply byteAt_insert_eq. rewrite length_insert. lia.
      * rewrite byteAt_insert_ne by lia. apply byteAt_insert_eq. rewrite !length_insert. lia.
      * apply byteAt_insert_eq. rewrite !length_insert. lia.
    + assert (Hsame : forall o, 0 <= o < 4 ->
        byteAt (<[Z.to_nat (4 * j + 3) := 255]>
                 (<[Z.to_nat (4 * j + 2) := Dither.b B]>
                    (<[Z.to_nat (4 * j + 1) := Dither.g B]>
                       (<[Z.to_nat (4 * j) := Dither.r B]> d)))) (4 * k + o)
        = byteAt d (4 * k + o))
        by (intros o Ho; now rewrite !byteAt_insert_ne by lia).
      pose proof (Hsame 0 ltac:(lia)) as H0. rewrite Z.add_0_r in H0.
      unfold pixelIs. rewrite H0, !Hsame by lia. apply Hpix. lia.
Qed.

(** The first loop fills the whole buffer with the background colour. *)
Lemma fillBackground_filled (B : Dither.Rgb) (n : Z) (d : list Z) :
  Z.of_nat (length d) = 4 * (n * n) ->
  exists d0,
    Dither.fillBackground n B d = Ok d0
    /\ Z.of_nat (length d0) = 4 * (n * n)
    /\ forall k, 0 <= k < n * n -> pixelIs d0 k B.
Proof.
  intros Hlen. unfold Dither.fillBackground.
  pose proof (forEach_counted (fun _ => False) (filledTo B (n * n)) (seqZ 0 (n * n))
    (fun d k =>
       let i := 4 * k in
       d ← Dither.store d i (Dither.r B);
       d ← Dither.store d (i + 1) (Dither.g B);
       d ← Dither.store d (i + 2) (Dither.b B);
       Dither.store d (i + 3) 255) d) as Hloop.
  cbv zeta in Hloop.
  destruct (forEach _ _ d) as [d0|f].
  - exists d0. split; [reflexivity|].
    rewrite length_seqZ in Hloop.
    assert (Hfilled : filledTo B (n * n) (Z.to_nat (n * n)) d0).
    { apply Hloop.
      - intros i a x Hx Ha. apply lookup_seqZ in Hx as [-> Hi].
        destruct (fill_pixel B (n * n) i a Ha ltac:(lia)) as (d' & Hd' & Hfill).
        rewrite Z.add_0_l, Hd'. exact Hfill.
      - split; [exact Hlen | intros k Hk; lia]. }
    destruct Hfilled as [Hl Hp]. split; [exact Hl|]. intros k Hk. apply Hp. lia.
  - exfalso. apply Hloop.
    + intros i a x Hx Ha. apply lookup_seqZ in Hx as [-> Hi].
      destruct (fill_pixel B (n * n) i a Ha ltac:(lia)) as (d' & Hd' & Hfill).
      rewrite Z.add_0_l, Hd'. exact Hfill.
    + split; [exact Hlen | intros k Hk; lia].
Qed.

(** The pixel loops of a cell keep the buffer two-tone and never fault,
    wherever the cell lies. *)
Lemma paintCell_twoTone (P : fault -> Prop) (A B : Dither.Rgb) (n ds gx gy : Z) (d : list Z) :
  twoTone A B (n * n) d -> holds P (twoTone A B (n * n)) (Dither.paintCell n ds A gx gy d).
Proof.
  intros Hd. unfold Dither.paintCell.
  apply forEach_holds; [|exact Hd]. intros d1 py _ Hd1.
  apply forEach_holds; [|exact Hd1]. intros d2 px _ Hd2.
  set (x := (gx - Dither.padding) * ds + px). set (y := (gy - Dither.padding) * ds + py).
  destruct (Z.ltb_spec x 0); [exact Hd2|].
  destruct (Z.ltb_spec y 0); [exact Hd2|].
  destruct (Z.geb_spec x n); [exact Hd2|].
  destruct (Z.geb_spec y n); [exact Hd2|].
  cbn [orb].
  destruct (paint_pixel A B (n * n) (y * n + x) d2 Hd2 ltac:(nia)) as (d' & Hd' & Htone).
  rewrite Hd'. exact Htone.
Qed.

Lemma loopCount_fault (bound : Num.number) (f : fault) :
  loopCount bound = Fail f -> f = Diverges.
Proof.
  destruct bound as [s|[|]| |[|] m e]; cbn -[Z.pow]; try discriminate; try (now intros [= <-]).
  destruct (_ <=? _); [discriminate | now intros [= <-]].
Qed.

Lemma paintGrid_twoTone (P : fault -> Prop) (value : Z -> Z -> Num.number) (A B : Dither.Rgb)
    (n : Z) (dotScale : Num.number) (cells : Z) (d : list Z) :
  holds P (fun _ => True) (loopCount dotScale) ->
  twoTone A B (n * n) d ->
  holds P (twoTone A B (n * n)) (Dither.paintGrid value n dotScale cells A d).
Proof.
  intros Hds Hd. unfold Dither.paintGrid.
  apply forEach_holds; [|exact Hd]. intros d1 gy _ Hd1.
  apply forEach_holds; [|exact Hd1]. intros d2 gx _ Hd2.
  destruct (Num.gtb _ _); [exact Hd2|].
  apply holds_bind with (I := fun _ => True); [exact Hds|].
  intros ds _. now apply paintCell_twoTone.
Qed.

Lemma toInt32_small (x : Num.number) :
  Z.abs (Num.truncZ x) < 2 ^ 31 -> Num.toInt32 x = Num.truncZ x.
Proof.
  intros Hn. unfold Num.toInt32, Num.toUint32. set (n := Num.truncZ x) in *.
  destruct (Z_lt_le_dec n 0) as [Hneg|Hpos].
  - replace (n mod 2 ^ 32) with (n + 2 ^ 32)
      by (symmetry; rewrite <- (Z_mod_plus_full n 1 (2 ^ 32)); apply Z.mod_small; lia).
    destruct (Z.ltb_spec (n + 2 ^ 32) (2 ^ 31)); lia.
  - rewrite Z.mod_small by lia. destruct (Z.ltb_spec n (2 ^ 31)); lia.
Qed.

Lemma createImageData_sized (s : Num.number) :
  Z.abs (Num.truncZ s) < 2 ^ 31 ->
  Dither.createImageData s
  = if Num.truncZ s =? 0 then Fail IndexSizeError
    else if 2 ^ 53 <=? Num.truncZ s * Num.truncZ s * 4 then Fail RangeError
    else Ok (Z.abs (Num.truncZ s),
             replicate (Z.to_nat (Num.truncZ s * Num.truncZ s * 4)) 0).
Proof.
  intros Hn. unfold Dither.createImageData. rewrite (toInt32_small s Hn).
  replace (Z.abs (Num.truncZ s) * Z.abs (Num.truncZ s) * 4)
    with (Num.truncZ s * Num.truncZ s * 4) by nia.
  destruct (Z.eqb_spec (Z.abs (Num.truncZ s)) 0), (Z.eqb_spec (Num.truncZ s) 0);
    try reflexivity; lia.
Qed.

Lemma loopCount_finite (bound : Num.number) :
  loopCount bound <> Fail Diverges -> exists n, loopCount bound = Ok n.
Proof.
  intros Hb. destruct (loopCount bound) as [n|f] eqn:E; [now exists n|].
  now rewrite (loopCount_fault _ _ E) in Hb.
Qed.

(** [draw]: what it puts on the canvas is a two-tone buffer of the size of
    the surface; it faults only as [P] allows. *)
Lemma draw_twoTone `{Host} (P : fault -> Prop) (seeds : list Num.number) (animated : bool)
    (sizePx dotScale gridSize : Num.number) (A B : Dither.Rgb) (phase : Num.number) :
  Z.abs (Num.truncZ sizePx) < 2 ^ 31 ->
  (Num.truncZ sizePx = 0 -> P IndexSizeError) ->
  (2 ^ 53 <= Num.truncZ sizePx * Num.truncZ sizePx * 4 -> P RangeError) ->
  holds P (fun _ => True) (loopCount dotScale) ->
  holds P (fun _ => True) (loopCount gridSize) ->
  holds P
    (fun ops => exists d,
         ops = [PutImageData (Z.abs (Num.truncZ sizePx)) d]
         /\ twoTone A B (Num.truncZ sizePx * Num.truncZ sizePx) d)
    (Dither.draw seeds animated sizePx dotScale gridSize A B phase).
Proof.
  intros Hn HP HR Hds Hgs. unfold Dither.draw. rewrite (createImageData_sized sizePx Hn).
  set (n := Num.truncZ sizePx) in *.
  destruct (Z.eqb_spec n 0) as [Hz|Hn0]; [exact (HP Hz)|].
  destruct (Z.leb_spec (2 ^ 53) (n * n * 4)) as [Hbig|_]; [exact (HR Hbig)|]. cbn -[Z.mul].
  destruct (fillBackground_filled B n (replicate (Z.to_nat (n * n * 4)) 0))
    as (d0 & Hfill & Hlen0 & Hpix0).
  { rewrite length_replicate. nia. }
  rewrite Hfill. cbn -[Z.mul].
  apply holds_bind with (I := fun _ => True); [exact Hgs|]. intros cells _.
  apply holds_bind with (I := twoTone A B (n * n)).
  - apply paintGrid_twoTone; [exact Hds|]. split; [exact Hlen0|]. intros k Hk. right. now apply Hpix0.
  - intros d Hd. cbn. now exists d.
Qed.

(** C9.  When the image buffer is [sizePx] by [sizePx] (a side below 2^31,
    as [createImageData] takes it), no store of [draw] falls outside the
    buffer: the first loop stays inside it, and the pixel loops skip the
    coordinates outside the canvas for every cell, those of the padding
    ring included, animated or not. *)
Theorem draw_in_bounds `{Host} (seeds : list Num.number) (animated : bool)
    (sizePx dotScale gridSize : Num.number) (colA colB : Dither.Rgb) (phase : Num.number) :
  Z.abs (Num.truncZ sizePx) < 2 ^ 31 ->
  Dither.draw seeds animated sizePx dotScale gridSize colA colB phase <> Fail OutOfRange.
Proof.
  intros Hn.
  pose proof (draw_twoTone (fun f => f <> OutOfRange) seeds animated sizePx dotScale gridSize
                colA colB phase Hn) as Hdraw.
  assert (Hloop : forall b, holds (fun f => f <> OutOfRange) (fun _ => True) (loopCount b)).
  { intros b. destruct (loopCount b) as [n|f] eqn:E; [exact I|].
    apply loopCount_fault in E as ->. discriminate. }
  specialize (Hdraw (fun _ => ltac:(discriminate)) (fun _ => ltac:(discriminate))
                (Hloop _) (Hloop _)).
  intros Heq. rewrite Heq in Hdraw. now apply Hdraw.
Qed.

Lemma draw_in_bounds_witness :
  Dither.draw (H := RefHost.host) (seedsOf (jstr "satoshi") 4)
    true 5%num 2%num 5%num accent backdrop 1.5%num
  <> Fail OutOfRange.
Proof. apply (draw_in_bounds (H := RefHost.host)). vm_compute. reflexivity. Defined.

(** ** renderDither: the palette and the static frame *)

Lemma paletteColor_lookup `{Host} (colors : list OklchColor) (i : nat) (col : OklchColor) :
  colors !! i = Some col ->
  Dither.paletteColor colors (Z.of_nat i) = Ok (Dither.hexToRgb (oklchToHex col)).
Proof.
  intros Hc. unfold Dither.paletteColor.
  destruct (Z.ltb_spec (Z.of_nat i) 0); [lia|]. now rewrite Nat2Z.id, Hc.
Qed.

(** A drawable frame, step by step: the buffer filled with [B], then the
    cells painted with [A] over it. *)
Lemma draw_complete `{Host} (opts : Dither.DitherOptions) (animated : bool)
    (A B : Dither.Rgb) (phase : Num.number) :
  drawable opts ->
  let n := Num.truncZ (Dither.sizePx opts) in
  exists d0 cells d,
    Dither.fillBackground n B (replicate (Z.to_nat (n * n * 4)) 0) = Ok d0
    /\ (forall k, 0 <= k < n * n -> pixelIs d0 k B)
    /\ loopCount (Dither.gridSize opts) = Ok cells
    /\ Dither.paintGrid (Dither.frameValue (Dither.seeds opts) animated (Dither.gridSize opts) phase)
         n (Dither.dotScalePx opts) cells A d0 = Ok d
    /\ twoTone A B (n * n) d
    /\ Dither.draw (Dither.seeds opts) animated (Dither.sizePx opts) (Dither.dotScalePx opts)
         (Dither.gridSize opts) A B phase
       = Ok [PutImageData n d].
Proof.
  intros (Hn & Hfit & Hds & Hgs) n. fold n in Hn, Hfit.
  destruct (fillBackground_filled B n (replicate (Z.to_nat (n * n * 4)) 0))
    as (d0 & Hfill & Hlen0 & Hpix0).
  { rewrite length_replicate. nia. }
  destruct (loopCount_finite _ Hds) as (ds & Eds), (loopCount_finite _ Hgs) as (cells & Ecells).
  pose proof (paintGrid_twoTone (fun _ => False)
                (Dither.frameValue (Dither.seeds opts) animated (Dither.gridSize opts) phase)
                A B n (Dither.dotScalePx opts) cells d0) as Hpaint.
  rewrite Eds in Hpaint. specialize (Hpaint I).
  assert (Htone0 : twoTone A B (n * n) d0)
    by (split; [exact Hlen0 | intros k Hk; right; now apply Hpix0]).
  specialize (Hpaint Htone0).
  destruct (Dither.paintGrid _ _ _ _ _ _) as [d|f] eqn:Epaint; [|contradiction].
  exists d0, cells, d.
  split; [exact Hfill|]. split; [exact Hpix0|]. split; [exact Ecells|].
  split; [exact Epaint|]. split; [exact Hpaint|].
  unfold Dither.draw. rewrite createImageData_sized by (fold n; nia). fold n.
  destruct (Z.eqb_spec n 0); [lia|]. destruct (Z.leb_spec (2 ^ 53) (n * n * 4)); [lia|].
  rewrite (Z.abs_eq n) by lia.
  cbn -[Z.mul]. rewrite Hfill. cbn -[Z.mul]. rewrite Ecells. cbn -[Z.mul].
  now rewrite Epaint.
Qed.

(** C7, as the code has it.  A static render of a drawable surface with a
    palette of at least two colours is a [staticFrame]: pre-filled with the
    second palette colour, painted with the first, and made of at most
    these two colours. *)
Theorem renderDither_static_two_tone `{Host} (opts : Dither.DitherOptions) :
  Dither.animated opts = false ->
  (2 <= length (Dither.colors opts))%nat ->
  drawable opts ->
  staticFrame opts.
Proof.
  intros Hstatic Hlen Hdraw.
  destruct (Dither.colors opts) as [|c0 [|c1 rest]] eqn:Ecolors; cbn in Hlen; try lia.
  destruct (draw_complete opts false (Dither.hexToRgb (oklchToHex c0))
              (Dither.hexToRgb (oklchToHex c1)) 0%num Hdraw)
    as (d0 & cells & d & Hfill & Hpix0 & _ & Hpaint & [Hlend Hpix] & Hd).
  exists c0, c1, d0, cells, d. rewrite Ecolors.
  split; [reflexivity|]. split; [reflexivity|]. cbv zeta.
  split; [exact Hfill|]. split; [exact Hpix0|]. split; [exact Hpaint|].
  split; [|split; [exact Hlend | exact Hpix]].
  unfold Dither.renderDither. rewrite Ecolors, Hstatic.
  rewrite (paletteColor_lookup (c0 :: c1 :: rest) 0 c0 eq_refl).
  change (Dither.paletteIndexB (c0 :: c1 :: rest))
    with (Z.min 1 (Z.of_nat (S (S (length rest))) - 1)).
  replace (Z.min 1 (Z.of_nat (S (S (length rest))) - 1)) with (Z.of_nat 1) by lia.
  rewrite (paletteColor_lookup (c0 :: c1 :: rest) 1 c1 eq_refl).
  cbn [mbind result_bind negb]. rewrite Hd. reflexivity.
Qed.

Lemma satoshi_drawable : drawable (H := RefHost.host) (satoshi 6%num false).
Proof. repeat split; vm_compute; discriminate || reflexivity. Qed.

Lemma renderDither_static_two_tone_witness :
  staticFrame (H := RefHost.host) (satoshi 6%num false).
Proof.
  apply (renderDither_static_two_tone (H := RefHost.host)).
  - reflexivity.
  - vm_compute. lia.
  - exact satoshi_drawable.
Defined.

(** C7 fails as stated.  At size 1 the only cell that covers the one pixel
    has the value 1/2, above its Bayer level 16/64, so the accent is never
    painted: with a palette of two colours that encode differently, the
    static frame holds one colour, the background. *)
Lemma renderDither_size_one_single_colour :
  map (oklchToHex (H := RefHost.host)) (Dither.colors (satoshi 1%num false))
  = [jstr "#00d4ae"; jstr "#004832"]
  /\ frameColours (Dither.renderDither (H := RefHost.host) (satoshi 1%num false))
     = Some [(0, 72, 50, 255)].
Proof. split; vm_compute; reflexivity. Qed.







(** A palette of one colour paints the whole frame in it. *)
Example renderDither_single_colour :
  frameColours
    (Dither.renderDither (H := RefHost.host)
       (withColors (satoshi 6%num false) (take 1 threeColours)))
  = Some [(244, 95, 176, 255)].
Proof. vm_compute. reflexivity. Qed.

(** ** Further properties *)

(** X1.  The cap of [generateColor]: the chroma of every colour it returns
    is at most 0.37, unless it is NaN. *)
Theorem generateColor_chroma (seed lSeed cSeed : Num.number) (tones : option (list OklchColor))
    (isSecondary : bool) (baseHue : option Num.number) (col : OklchColor) :
  generateColor seed lSeed cSeed tones isSecondary baseHue = Some col ->
  Num.isNaN (Oklch.c col) = true \/ Num.leb (Oklch.c col) 0.37%num = true.
Proof.
  unfold generateColor. intros Hg.
  destruct tones as [[|t ts]|].
  - destruct isSecondary; injection Hg as <-; cbn [Oklch.c]; now apply min_cap.
  - destruct (lookupNum _ _) as [tone|]; [|discriminate]. cbn in Hg.
    injection Hg as <-; cbn [Oklch.c]; now apply min_cap.
  - destruct isSecondary; injection Hg as <-; cbn [Oklch.c]; now apply min_cap.
Qed.

Lemma generateColor_chroma_witness :
  match generateColor 0.25%num 0.5%num 0.75%num (Some threeColours) true None with
  | Some col => Num.isNaN (Oklch.c col) = true \/ Num.leb (Oklch.c col) 0.37%num = true
  | None => True
  end.
Proof.
  destruct (generateColor 0.25%num 0.5%num 0.75%num (Some threeColours) true None) as [col|] eqn:E.
  - exact (generateColor_chroma _ _ _ _ _ _ col E).
  - exact I.
Defined.

(** X2.  [fnv1a] is not FNV-1a modulo 2^32: the product is taken in double
    precision and rounded before it is reduced.  On ["abc"] the code gives
    440920332, the wrapped hash is 440920331. *)
Theorem fnv1a_rounds :
  fnv1a (jstr "abc") = 440920332 /\ fnv1a_wrapped (jstr "abc") = 440920331.
Proof. split; vm_compute; reflexivity. Qed.

(** X3.  Changing the last character changes the seeds:
    [hashToSeeds("abc", 4)] and [hashToSeeds("abd", 4)] differ. *)
Theorem hashToSeeds_sensitive `{Host} (laws : unicodeLowerCase) :
  hashToSeeds (jstr "abc") 4 <> hashToSeeds (jstr "abd") 4.
Proof.
  destruct laws as (_ & _ & Hascii). unfold hashToSeeds.
  rewrite !Hascii by reflexivity. vm_compute. discriminate.
Qed.

Lemma hashToSeeds_sensitive_witness :
  hashToSeeds (H := RefHost.host) (jstr "abc") 4 <> hashToSeeds (H := RefHost.host) (jstr "abd") 4.
Proof. exact (hashToSeeds_sensitive (H := RefHost.host) refHost_unicodeLowerCase). Defined.

(** X4.  With animation on and a palette of at least one colour,
    [renderDither] draws nothing itself: it sizes the canvas, asks for a
    frame and returns the cancellation handle. *)
Theorem renderDither_animated `{Host} (opts : Dither.DitherOptions) :
  Dither.animated opts = true ->
  (1 <= length (Dither.colors opts))%nat ->
  Dither.renderDither opts
  = Ok (Some CancelAnimationFrame, setupOps opts ++ [RequestAnimationFrame]).
Proof.
  intros Hanim Hlen.
  assert (HiB : 0 <= Dither.paletteIndexB (Dither.colors opts)
                < Z.of_nat (length (Dither.colors opts)))
    by (unfold Dither.paletteIndexB; lia).
  destruct (Dither.colors opts !! 0%nat) as [c0|] eqn:E0;
    [| apply lookup_ge_None in E0; lia].
  destruct (Dither.colors opts !! Z.to_nat (Dither.paletteIndexB (Dither.colors opts)))
    as [cB|] eqn:EB; [| apply lookup_ge_None in EB; lia].
  pose proof (paletteColor_lookup _ _ _ E0) as HA.
  pose proof (paletteColor_lookup _ _ _ EB) as HB. rewrite Z2Nat.id in HB by lia.
  unfold Dither.renderDither. change (Z.of_nat 0) with 0 in HA.
  now rewrite HA, HB, Hanim.
Qed.

Lemma renderDither_animated_witness :
  Dither.renderDither (H := RefHost.host) (satoshi 64%num true)
  = Ok (Some CancelAnimationFrame,
        setupOps (H := RefHost.host) (satoshi 64%num true) ++ [RequestAnimationFrame]).
Proof.
  apply (renderDither_animated (H := RefHost.host)); [reflexivity | vm_compute; lia].
Defined.

(** ** The hash and the seeds *)

Lemma toUint32_range (x : Num.number) : 0 <= Num.toUint32 x < 2 ^ 32.
Proof. unfold Num.toUint32. apply Z.mod_pos_bound. lia. Qed.

Lemma fnv1a_fold_range (s : jsstring) (acc : Z) :
  0 <= acc < 2 ^ 32 -> 0 <= fold_left fnv1a_step s acc < 2 ^ 32.
Proof.
  revert acc. induction s as [|c s IH]; simpl; intros acc Hacc; [exact Hacc|].
  apply IH. apply toUint32_range.
Qed.

(** X5.  [fnv1a] returns an unsigned 32-bit integer, whatever the string:
    every turn of its loop ends with [>>> 0]. *)
Theorem fnv1a_uint32 (s : jsstring) : 0 <= fnv1a s < 2 ^ 32.
Proof. unfold fnv1a. apply fnv1a_fold_range. lia. Qed.

Lemma rng_draw_take (n k : nat) (s : Z) : take n (rng_draw (n + k) s) = rng_draw n s.
Proof.
  revert s. induction n as [|n IH]; intros s; [reflexivity|].
  cbn [Nat.add rng_draw]. destruct (rng_next s) as [s' x]. cbn [take]. f_equal. apply IH.
Qed.

Lemma arrayLength_inv (n : Z) (k : nat) : arrayLength n = Ok k -> n < 2 ^ 32 /\ k = Z.to_nat n.
Proof.
  unfold arrayLength. destruct (Z.leb_spec (2 ^ 32) n); [discriminate|].
  intros [= <-]. split; [assumption|reflexivity].
Qed.

(** X6.  The seeds of a hash are one sequence: asking for fewer gives a
    prefix of what asking for more gives.  So the four seeds the entry
    points hand to a renderer are the first four of those that made the
    palette. *)
Theorem hashToSeeds_prefix `{Host} (hash : jsstring) (n m : Z) (long : list Num.number) :
  n <= m ->
  hashToSeeds hash m = Ok long ->
  hashToSeeds hash n = Ok (take (Z.to_nat n) long).
Proof.
  intros Hnm. unfold hashToSeeds.
  destruct (arrayLength m) as [k|f] eqn:Em; [|discriminate].
  apply arrayLength_inv in Em as [Hm ->]. cbn [mbind result_bind]. intros [= <-].
  rewrite arrayLength_Ok by lia. cbn [mbind result_bind]. f_equal. unfold seededRng.
  replace (Z.to_nat m) with (Z.to_nat n + (Z.to_nat m - Z.to_nat n))%nat by lia.
  now rewrite rng_draw_take.
Qed.

Lemma hashToSeeds_prefix_witness :
  hashToSeeds (H := RefHost.host) (jstr "satoshi") 4
  = Ok (take (Z.to_nat 4) (seedsOf (jstr "satoshi") 12)).
Proof.
  apply (hashToSeeds_prefix (H := RefHost.host) (jstr "satoshi") 4 12); [lia|reflexivity].
Defined.

(** ** Hex strings and bytes *)

Lemma wrapS_small (z : Z) : 0 <= z < 2 ^ 31 -> Int32.wrapS z = z.
Proof.
  intros Hz. unfold Int32.wrapS, Int32.wrapU.
  rewrite Z.mod_small by lia. destruct (Z.ltb_spec z (2 ^ 31)); lia.
Qed.

Lemma and255_mod (n : Z) : Int32.and n 255 = Int32.wrapS n mod 256.
Proof.
  unfold Int32.and. rewrite (wrapS_small 255) by lia.
  change 255 with (Z.ones 8). rewrite Z.land_ones by lia. change (2 ^ 8) with 256.
  pose proof (Z.mod_pos_bound (Int32.wrapS n) 256 ltac:(lia)).
  apply wrapS_small. lia.
Qed.

Lemma and255_byte (n : Z) : isByte (Int32.and n 255).
Proof.
  rewrite and255_mod. pose proof (Z.mod_pos_bound (Int32.wrapS n) 256 ltac:(lia)).
  unfold isByte. lia.
Qed.

Lemma hexToRgb_components (hex : jsstring) :
  (let '(r, g, b) := hexToRgb hex in isByte r /\ isByte g /\ isByte b)
  /\ (let c := Dither.hexToRgb hex in
      isByte (Dither.r c) /\ isByte (Dither.g c) /\ isByte (Dither.b c)).
Proof.
  unfold hexToRgb, Dither.hexToRgb. cbn [Dither.r Dither.g Dither.b].
  repeat split; apply and255_byte.
Qed.

(** X11.  Whatever the string, the three components that [hexToRgb]
    returns are bytes, in color.ts and in dither.ts. *)
Theorem hexToRgb_bytes (hex : jsstring) :
  (let '(r, g, b) := hexToRgb hex in isByte r /\ isByte g /\ isByte b)
  /\ (let c := Dither.hexToRgb hex in
      isByte (Dither.r c) /\ isByte (Dither.g c) /\ isByte (Dither.b c)).
Proof. apply hexToRgb_components. Qed.

(** ** parseTone *)
Lemma trimStart_app_space (ws s : jsstring) :
  forallb isWhiteSpace ws = true -> trimStart (ws ++ s) = trimStart s.
Proof.
  induction ws as [|c ws IH]; [reflexivity|]. cbn [forallb app trimStart].
  intros [Hc Hws]%andb_true_iff. rewrite Hc. now apply IH.
Qed.

Lemma trimStart_all_space (ws : jsstring) :
  forallb isWhiteSpace ws = true -> trimStart ws = [].
Proof.
  intros Hws. rewrite <- (app_nil_r ws). now rewrite trimStart_app_space.
Qed.

Lemma forallb_rev {A} (p : A -> bool) (xs : list A) : forallb p (rev xs) = forallb p xs.
Proof.
  induction xs as [|x xs IH]; [reflexivity|]. cbn [rev forallb].
  rewrite forallb_app, IH. cbn [forallb]. rewrite andb_true_r. apply andb_comm.
Qed.

Lemma trimEnd_app_space (s ws : jsstring) :
  forallb isWhiteSpace ws = true -> trimEnd (s ++ ws) = trimEnd s.
Proof.
  intros Hws. unfold trimEnd. rewrite rev_app_distr, trimStart_app_space; [reflexivity|].
  now rewrite forallb_rev.
Qed.

Lemma trimStart_app (s w : jsstring) :
  trimStart (s ++ w) = trimStart s ++ w \/ (trimStart s = [] /\ trimStart (s ++ w) = trimStart w).
Proof.
  induction s as [|c s IH]; [right; split; reflexivity|].
  cbn [app trimStart]. destruct (isWhiteSpace c); [exact IH|]. left. reflexivity.
Qed.

Lemma trim_surrounded (ws1 s ws2 : jsstring) :
  forallb isWhiteSpace ws1 = true -> forallb isWhiteSpace ws2 = true ->
  trim (ws1 ++ s ++ ws2) = trim s.
Proof.
  intros H1 H2. unfold trim. rewrite trimStart_app_space by exact H1.
  destruct (trimStart_app s ws2) as [-> | [Hs ->]].
  - now apply trimEnd_app_space.
  - now rewrite Hs, trimStart_all_space.
Qed.

(** X8.  [parseTone] ignores the white space around a token. *)
Theorem parseTone_trims `{Host} (ws1 tone ws2 : jsstring) :
  forallb isWhiteSpace ws1 = true -> forallb isWhiteSpace ws2 = true ->
  parseTone (ws1 ++ tone ++ ws2) = parseTone tone.
Proof. intros H1 H2. unfold parseTone. now rewrite trim_surrounded. Qed.

Lemma parseTone_trims_witness :
  parseTone (H := RefHost.host) (jstr "  " ++ jstr "#ff69b4" ++ jstr " ")
  = parseTone (H := RefHost.host) (jstr "#ff69b4").
Proof. apply (parseTone_trims (H := RefHost.host)); reflexivity. Defined.

(** X9.  A token that begins with [#] is never rejected: whatever follows,
    [parseTone] returns the tone of the bytes [hexToRgb] makes of it. *)
Theorem parseTone_hash_accepted `{Host} (tone : jsstring) :
  startsWith (trim tone) (jstr "#") = true ->
  exists r g b,
    hexToRgb (trim tone) = (r, g, b)
    /\ isByte r /\ isByte g /\ isByte b
    /\ parseTone tone = Some (rgbToOklch (Num.ofZ r) (Num.ofZ g) (Num.ofZ b)).
Proof.
  intros Hhash. unfold parseTone. rewrite Hhash.
  destruct (trim tone) as [|c t] eqn:Et; [discriminate|].
  cbn [jstr startsWith] in Hhash. apply andb_true_iff in Hhash as [Hc _].
  apply Z.eqb_eq in Hc. subst c.
  cbn [length Nat.eqb negb forallb andb orb].
  change (isAlpha _) with false. cbn [andb].
  pose proof (hexToRgb_components (35 :: t)) as [Hb _].
  change (N_of_ascii "#") with 35%N in *. change (Z.of_N 35) with 35 in *.
  destruct (hexToRgb (35 :: t)) as [[r g] b]. exists r, g, b.
  split; [reflexivity|]. destruct Hb as (Hr & Hg & Hb).
  split; [exact Hr|]. split; [exact Hg|]. split; [exact Hb|]. reflexivity.
Qed.

Lemma parseTone_hash_accepted_witness :
  exists r g b,
    hexToRgb (trim (jstr " #ff69b4 ")) = (r, g, b)
    /\ isByte r /\ isByte g /\ isByte b
    /\ parseTone (H := RefHost.host) (jstr " #ff69b4 ")
       = Some (rgbToOklch (H := RefHost.host) (Num.ofZ r) (Num.ofZ g) (Num.ofZ b)).
Proof. apply (parseTone_hash_accepted (H := RefHost.host)). reflexivity. Defined.

(** X10.  A token made of letters only is read as a colour name and as
    nothing else, also when its letters are hexadecimal digits (["fade"],
    ["ffffff"]): without a [document] the result is none, and with one the
    result, when there is one, is the tone of the pixel the canvas painted
    for that name. *)
Theorem parseTone_letters `{Host} (tone : jsstring) :
  trim tone <> [] -> forallb isAlpha (trim tone) = true ->
  (hasDocument = false -> parseTone tone = None)
  /\ forall col,
       parseTone tone = Some col ->
       exists r g b,
         namedColorPixel (trim tone) = (r, g, b)
         /\ col = rgbToOklch (Num.ofZ r) (Num.ofZ g) (Num.ofZ b)
         /\ (0 < r + g + b \/ toLowerCase (trim tone) = jstr "black").
Proof.
  intros Hne Halpha. unfold parseTone. rewrite Halpha.
  destruct (trim tone) as [|c t] eqn:Et; [contradiction|]. cbn [length Nat.eqb negb andb].
  split; [now intros ->|].
  intros col. destruct hasDocument; cbn [negb]; [|discriminate].
  destruct (namedColorPixel (c :: t)) as [[r g] b].
  destruct (Z.ltb_spec 0 (r + g + b)) as [Hpos|Hzero]; cbn [orb].
  - intros [= <-]. exists r, g, b. split; [reflexivity|]. split; [reflexivity|]. now left.
  - destruct (bool_decide (toLowerCase (c :: t) = jstr "black")) eqn:Eb; [|discriminate].
    apply bool_decide_eq_true in Eb.
    intros [= <-]. exists r, g, b. split; [reflexivity|]. split; [reflexivity|]. now right.
Qed.

Lemma parseTone_letters_witness :
  (hasDocument (Host := RefHost.headless) = false
   -> parseTone (H := RefHost.headless) (jstr "ffffff") = None)
  /\ forall col,
       parseTone (H := RefHost.headless) (jstr "ffffff") = Some col ->
       exists r g b,
         namedColorPixel (Host := RefHost.headless) (trim (jstr "ffffff")) = (r, g, b)
         /\ col = rgbToOklch (H := RefHost.headless) (Num.ofZ r) (Num.ofZ g) (Num.ofZ b)
         /\ (0 < r + g + b
             \/ toLowerCase (Host := RefHost.headless) (trim (jstr "ffffff")) = jstr "black").
Proof.
  apply (parseTone_letters (H := RefHost.headless) (jstr "ffffff")); [discriminate|reflexivity].
Defined.

(** ** The device pixel ratio *)

Lemma ltb_leb (x y : Num.number) : Num.ltb x y = true -> Num.leb x y = true.
Proof.
  unfold Num.ltb, Num.leb, SFltb, SFleb. now destruct (SFcompare x y) as [[]|].
Qed.

Lemma not_ltb_leb (x y : Num.number) :
  Num.isNaN x = false -> Num.isNaN y = false ->
  Num.ltb x y = false -> Num.ltb y x = false -> Num.leb x y = true.
Proof.
  unfold Num.ltb, Num.leb, SFltb, SFleb. intros Hx Hy.
  destruct (SFcompare x y) as [c|] eqn:E.
  - rewrite (SFcompare_antisym _ _ _ E). now destruct c.
  - destruct x as [sx| sx| |sx mx ex], y as [sy|sy| |sy my ey]; cbn in *; try discriminate;
      repeat match goal with
             | H : context [if ?b then _ else _] |- _ => destruct b
             | H : context [match ?c with Eq => _ | Lt => _ | Gt => _ end] |- _ => destruct c
             end; discriminate.
Qed.

(** X13.  [getDevicePixelRatio] never returns more than 3, never NaN and
    never zero, whatever [window.devicePixelRatio] is. *)
Theorem getDevicePixelRatio_capped `{Host} :
  Num.leb getDevicePixelRatio 3%num = true
  /\ Num.isNaN getDevicePixelRatio = false
  /\ Num.eqb getDevicePixelRatio 0%num = false.
Proof.
  unfold getDevicePixelRatio.
  destruct devicePixelRatio as [d|]; [|repeat split].
  assert (Hthree : Num.isNaN 3%num = false) by reflexivity.
  destruct d as [s|s| |s m e]; try (repeat split; fail).
  - unfold Num.min. cbn [Num.isNaN orb].
    destruct s; cbn; repeat split.
  - unfold Num.min. cbn [Num.isNaN orb].
    destruct (Num.ltb (S754_finite s m e) 3%num) eqn:E1.
    { split; [now apply ltb_leb|]. split; [reflexivity|]. now destruct s. }
    destruct (Num.ltb 3%num (S754_finite s m e)) eqn:E2; [repeat split|].
    destruct (Num.signbit (S754_finite s m e)); [|repeat split].
    split; [now apply not_ltb_leb|]. split; [reflexivity|]. now destruct s.
Qed.

(** ** The Bayer matrix *)

Lemma mod8_cases (z : Z) :
  z mod 8 = 0 \/ z mod 8 = 1 \/ z mod 8 = 2 \/ z mod 8 = 3
  \/ z mod 8 = 4 \/ z mod 8 = 5 \/ z mod 8 = 6 \/ z mod 8 = 7.
Proof. pose proof (Z.mod_pos_bound z 8 ltac:(lia)). lia. Qed.

(** The matrix is 8 by 8, its 64 entries are distinct levels [k / 64], all
    above or equal to 0 and below 1. *)
Lemma bayer_table :
  NoDup (concat Dither.BAYER8)
  /\ Forall (fun row => length row = 8%nat) Dither.BAYER8
  /\ length Dither.BAYER8 = 8%nat
  /\ Forall (fun level => level ∈ bayerLevels
                          /\ Num.gtb 0%num level = false
                          /\ Num.gtb 1%num level = true) (concat Dither.BAYER8).
Proof.
  split; [|split; [|split]].
  - apply (bool_decide_unpack _). vm_compute. exact I.
  - apply (bool_decide_unpack _). vm_compute. exact I.
  - reflexivity.
  - apply (bool_decide_unpack _). vm_compute. exact I.
Qed.

(** X14.  For all cell numbers [gx] and [gy], which the loops count from 0,
    the threshold [BAYER8[gy % 8][gx % 8]] is one of the 64 levels [k / 64]:
    the lookup never leaves the matrix.  A cell whose eased value is 0 is
    never skipped, one whose value is 1 always is. *)
Theorem bayerAt_level (gy gx : Z) :
  0 <= gy -> 0 <= gx ->
  Dither.bayerAt gy gx ∈ bayerLevels
  /\ Num.gtb 0%num (Dither.bayerAt gy gx) = false
  /\ Num.gtb 1%num (Dither.bayerAt gy gx) = true
  /\ Dither.bayerAt gy gx = Dither.bayerAt (gy mod 8) (gx mod 8).
Proof.
  intros _ _.
  assert (Hin : Dither.bayerAt gy gx ∈ concat Dither.BAYER8).
  { unfold Dither.bayerAt.
    destruct (mod8_cases gy) as [->|[->|[->|[->|[->|[->|[->| ->]]]]]]];
    destruct (mod8_cases gx) as [->|[->|[->|[->|[->|[->|[->| ->]]]]]]];
    apply (bool_decide_unpack _); vm_compute; exact I. }
  destruct bayer_table as (_ & _ & _ & Hall).
  rewrite Forall_forall in Hall. destruct (Hall _ Hin) as (H1 & H2 & H3).
  split; [exact H1|]. split; [exact H2|]. split; [exact H3|].
  unfold Dither.bayerAt. now rewrite !Z.mod_mod by lia.
Qed.

Lemma bayerAt_level_witness :
  Dither.bayerAt 9 10 ∈ bayerLevels
  /\ Num.gtb 0%num (Dither.bayerAt 9 10) = false
  /\ Num.gtb 1%num (Dither.bayerAt 9 10) = true
  /\ Dither.bayerAt 9 10 = Dither.bayerAt (9 mod 8) (10 mod 8).
Proof. apply (bayerAt_level 9 10); lia. Defined.

(** ** renderGradient *)

Lemma seedString_take `{Host} (seeds : list Num.number) (i : nat) :
  (i < 4)%nat -> Gradient.seedString (take 4 seeds) i = Gradient.seedString seeds i.
Proof. intros Hi. unfold Gradient.seedString. now rewrite lookup_take_lt by lia. Qed.

(** X15.  [renderGradient] reads the first four colours and the first four
    seeds and nothing after them. *)
Theorem renderGradient_first_four `{Host} (opts : Gradient.GradientOptions) :
  Gradient.renderGradient (firstFour opts) = Gradient.renderGradient opts.
Proof.
  unfold Gradient.renderGradient, firstFour.
  cbn [Gradient.size Gradient.colors Gradient.animated Gradient.seeds].
  rewrite !seedString_take by lia.
  rewrite length_take.
  destruct (Nat.ltb_spec (length (Gradient.colors opts)) 4) as [Hlt|Hge].
  - replace (4 `min` length (Gradient.colors opts) <? 4)%nat with true
      by (symmetry; apply Nat.ltb_lt; lia). reflexivity.
  - replace (4 `min` length (Gradient.colors opts) <? 4)%nat with false
      by (symmetry; apply Nat.ltb_ge; lia).
    now rewrite !lookup_take_lt by lia.
Qed.




(** ** From OKLCH to a hex string and to bytes *)

Lemma oklchToHex_channels `{Host} (col : OklchColor) :
  oklchToHex col = hexOfChannels (srgbChannels col).
Proof.
  destruct col as [l c h]. unfold oklchToHex, srgbChannels, hexOfChannels.
  cbv zeta. cbn [map flat_map app]. reflexivity.
Qed.

Lemma iter_xO_value (p k : positive) : Zpos (Pos.iter xO p k) = Zpos p * 2 ^ Zpos k.
Proof.
  induction k as [|k IH] using Pos.peano_ind.
  - cbn [Pos.iter]. lia.
  - rewrite Pos.iter_succ, Pos2Z.inj_succ, Z.pow_succ_r by lia.
    change (Zpos (Pos.iter xO p k)~0) with (2 * Zpos (Pos.iter xO p k)). lia.
Qed.

Lemma mant53_value (p : positive) :
  Zpos (digits2_pos p) <= 53 -> Zpos (mant53 p) = Zpos p * 2 ^ (53 - Zpos (digits2_pos p)).
Proof.
  intros Hd. unfold mant53.
  destruct (53 - Zpos (digits2_pos p)) as [|k|k] eqn:E; try lia.
  apply iter_xO_value.
Qed.

Lemma floorZ_ofZ (n : Z) : 0 <= n < 2 ^ 53 -> Num.floorZ (Num.ofZ n) = n.
Proof.
  intros Hn. destruct n as [|p|p]; [reflexivity| |lia].
  assert (Hd : Zpos (digits2_pos p) <= 53) by (apply digits2_pos_le; lia).
  rewrite ofZ_pos by exact Hd. unfold Num.floorZ, Num.scaled.
  rewrite mant53_value by exact Hd.
  pose proof (Pos2Z.is_pos (digits2_pos p)).
  replace (Zpos (digits2_pos p) - 53) with (- (53 - Zpos (digits2_pos p))) by lia.
  rewrite Z.shiftl_opp_r, Z.shiftr_div_pow2 by lia.
  apply Z.div_mul. apply Z.pow_nonzero; lia.
Qed.

Lemma truncZ_ofZ (n : Z) : 0 <= n < 2 ^ 53 -> Num.truncZ (Num.ofZ n) = n.
Proof.
  intros Hn. pose proof (floorZ_ofZ n Hn) as Hf.
  destruct n as [|p|p]; [reflexivity| |lia].
  assert (Hd : Zpos (digits2_pos p) <= 53) by (apply digits2_pos_le; lia).
  rewrite ofZ_pos in * by exact Hd. unfold Num.floorZ in Hf. unfold Num.truncZ.
  cbn [Num.scaled] in *.
  change (Z.sgn (Zpos (mant53 p))) with 1.
  change (Z.abs (Zpos (mant53 p))) with (Zpos (mant53 p)).
  rewrite Hf. lia.
Qed.

Lemma sixteen_cases (d : Z) :
  0 <= d < 16 ->
  d = 0 \/ d = 1 \/ d = 2 \/ d = 3 \/ d = 4 \/ d = 5 \/ d = 6 \/ d = 7
  \/ d = 8 \/ d = 9 \/ d = 10 \/ d = 11 \/ d = 12 \/ d = 13 \/ d = 14 \/ d = 15.
Proof. lia. Qed.

Ltac each16 d H :=
  destruct (sixteen_cases d H)
    as [->|[->|[->|[->|[->|[->|[->|[->|[->|[->|[->|[->|[->|[->|[->| ->]]]]]]]]]]]]]]].

Lemma hexDigit_hexChar (d : Z) : 0 <= d < 16 -> hexDigit (hexChar d) = Some d.
Proof. intros Hd. each16 d Hd; reflexivity. Qed.

Lemma parseInt16_two (d1 d2 : Z) (rest : jsstring) :
  0 <= d1 < 16 -> 0 <= d2 < 16 ->
  parseInt16 (hexChar d1 :: hexChar d2 :: rest) = fromRun (hexRun (16 * d1 + d2) true rest).
Proof. intros H1 H2. each16 d1 H1; each16 d2 H2; reflexivity. Qed.

Lemma hexRun_digit (acc d : Z) (rest : jsstring) :
  0 <= d < 16 -> hexRun acc true (hexChar d :: rest) = hexRun (16 * acc + d) true rest.
Proof. intros Hd. cbn [hexRun]. now rewrite hexDigit_hexChar. Qed.

Lemma byte_hex (v : Z) :
  isByte v -> padStart2 (toString16 (Num.ofZ v)) = [hexChar (v / 16); hexChar (v mod 16)].
Proof.
  intros Hv.
  assert (Hall : Forall (fun v => padStart2 (toString16 (Num.ofZ v))
                                  = [hexChar (v / 16); hexChar (v mod 16)]) (seqZ 0 256))
    by (apply (bool_decide_unpack _); vm_compute; exact I).
  rewrite Forall_forall in Hall. apply Hall. apply elem_of_seqZ. unfold isByte in Hv. lia.
Qed.

Lemma toInt32_fromRun (n : Z) : 0 <= n < 2 ^ 31 -> Num.toInt32 (fromRun (Some n)) = n.
Proof.
  intros Hn. destruct n as [|p|p]; [reflexivity| |lia].
  cbn [fromRun]. rewrite toInt32_small; rewrite truncZ_ofZ; lia.
Qed.

Lemma channel_bytes (n : Z) :
  0 <= n < 2 ^ 24 ->
  Int32.and (Int32.sar n 16) 255 = n / 65536
  /\ Int32.and (Int32.sar n 8) 255 = n / 256 mod 256
  /\ Int32.and n 255 = n mod 256.
Proof.
  intros Hn. rewrite !and255_mod. unfold Int32.sar.
  rewrite (wrapS_small n) by lia.
  change (16 mod 32) with 16. change (8 mod 32) with 8.
  rewrite !Z.shiftr_div_pow2 by lia. change (2 ^ 16) with 65536. change (2 ^ 8) with 256.
  assert (0 <= n / 65536 < 256) by (split; [apply Z.div_pos; lia | apply Z.div_lt_upper_bound; lia]).
  assert (0 <= n / 256 < 65536) by (split; [apply Z.div_pos; lia | apply Z.div_lt_upper_bound; lia]).
  rewrite !wrapS_small by lia. rewrite (Z.mod_small (n / 65536)) by lia. repeat split.
Qed.

Lemma hexToRgb_of_bytes (r g b : Z) :
  isByte r -> isByte g -> isByte b ->
  let hex := hexOfChannels [Num.ofZ r; Num.ofZ g; Num.ofZ b] in
  removeFirst 0x23 hex
  = [hexChar (r / 16); hexChar (r mod 16); hexChar (g / 16); hexChar (g mod 16);
     hexChar (b / 16); hexChar (b mod 16)]
  /\ Num.toInt32 (parseInt16 (removeFirst 0x23 hex)) = (r * 256 + g) * 256 + b.
Proof.
  intros Hr Hg Hb hex.
  assert (Hclean : removeFirst 0x23 hex
    = [hexChar (r / 16); hexChar (r mod 16); hexChar (g / 16); hexChar (g mod 16);
       hexChar (b / 16); hexChar (b mod 16)]).
  { unfold hex, hexOfChannels. cbn [flat_map removeFirst].
    change (35 =? 35) with true. cbv iota.
    now rewrite !byte_hex by assumption. }
  split; [exact Hclean|]. rewrite Hclean. unfold isByte in *.
  assert (H16 : forall v, 0 <= v <= 255 -> 0 <= v / 16 < 16 /\ 0 <= v mod 16 < 16).
  { intros v Hv. split; [split; [apply Z.div_pos; lia | apply Z.div_lt_upper_bound; lia]|].
    apply Z.mod_pos_bound. lia. }
  destruct (H16 r Hr), (H16 g Hg), (H16 b Hb).
  rewrite parseInt16_two by assumption.
  rewrite !hexRun_digit by assumption. cbn [hexRun].
  pose proof (Z.div_mod r 16 ltac:(lia)). pose proof (Z.div_mod g 16 ltac:(lia)).
  pose proof (Z.div_mod b 16 ltac:(lia)).
  replace (16 * (16 * (16 * (16 * (16 * (r / 16) + r mod 16) + g / 16) + g mod 16) + b / 16)
           + b mod 16) with ((r * 256 + g) * 256 + b) by lia.
  apply toInt32_fromRun. lia.
Qed.

(** X12.  The hex string that [oklchToHex] prints is read back exactly by
    [hexToRgb]: when the three rounded channels are the bytes [r], [g],
    [b], the string is [#] and six hexadecimal digits, and both [hexToRgb]
    functions return [r], [g], [b]. *)
Theorem hex_round_trip `{Host} (col : OklchColor) (r g b : Z) :
  isByte r -> isByte g -> isByte b ->
  srgbChannels col = [Num.ofZ r; Num.ofZ g; Num.ofZ b] ->
  oklchToHex col
  = [0x23; hexChar (r / 16); hexChar (r mod 16); hexChar (g / 16); hexChar (g mod 16);
     hexChar (b / 16); hexChar (b mod 16)]
  /\ hexToRgb (oklchToHex col) = (r, g, b)
  /\ Dither.hexToRgb (oklchToHex col) = {| Dither.r := r; Dither.g := g; Dither.b := b |}.
Proof.
  intros Hr Hg Hb Hch. rewrite oklchToHex_channels, Hch.
  destruct (hexToRgb_of_bytes r g b Hr Hg Hb) as [Hclean Hn]. cbv zeta in Hclean, Hn.
  unfold isByte in *.
  assert (Hrange : 0 <= (r * 256 + g) * 256 + b < 2 ^ 24) by lia.
  destruct (channel_bytes _ Hrange) as (Er & Eg & Eb).
  assert (Vr : ((r * 256 + g) * 256 + b) / 65536 = r)
    by (symmetry; apply (Z.div_unique _ _ _ (g * 256 + b)); lia).
  assert (Vg : ((r * 256 + g) * 256 + b) / 256 mod 256 = g).
  { replace (((r * 256 + g) * 256 + b) / 256) with (r * 256 + g)
      by (apply (Z.div_unique _ _ _ b); lia).
    symmetry. apply (Z.mod_unique _ _ r); lia. }
  assert (Vb : ((r * 256 + g) * 256 + b) mod 256 = b)
    by (symmetry; apply (Z.mod_unique _ _ (r * 256 + g)); lia).
  split; [|split].
  - unfold hexOfChannels. cbn [flat_map]. now rewrite !byte_hex by assumption.
  - unfold hexToRgb. rewrite Hclean. cbn [length Nat.eqb].
    rewrite <- Hclean, Hn, Er, Eg, Eb, Vr, Vg, Vb. reflexivity.
  - unfold Dither.hexToRgb. rewrite Hn, Er, Eg, Eb, Vr, Vg, Vb. reflexivity.
Qed.

Lemma hex_round_trip_witness :
  let col := {| Oklch.l := 0.7%num; Oklch.c := 0.2%num; Oklch.h := 350%num |} in
  oklchToHex (H := RefHost.host) col = jstr "#f45fb0"
  /\ hexToRgb (oklchToHex (H := RefHost.host) col) = (244, 95, 176)
  /\ Dither.hexToRgb (oklchToHex (H := RefHost.host) col)
     = {| Dither.r := 244; Dither.g := 95; Dither.b := 176 |}.
Proof.
  apply (hex_round_trip (H := RefHost.host) _ 244 95 176); unfold isByte; try lia.
  vm_compute. reflexivity.
Defined.

(** ** The dither frame, pixel by pixel *)

Lemma paintedWhere_ext (A : Dither.Rgb) (n : Z) (d0 : list Z) (Q Q' : Z -> Z -> Prop)
    (d : list Z) :
  (forall x y, 0 <= x < n -> 0 <= y < n -> (Q x y <-> Q' x y)) ->
  paintedWhere A n d0 Q d -> paintedWhere A n d0 Q' d.
Proof.
  intros Hext [Hlen Hpix]. split; [exact Hlen|]. intros x y Hx Hy.
  specialize (Hext x y Hx Hy). destruct (Hpix x y Hx Hy) as [[HQ Hp]|[HQ Hk]]; [left|right]; tauto.
Qed.

Lemma paintedWhere_start (A : Dither.Rgb) (n : Z) (d0 : list Z) :
  paintedWhere A n d0 (fun _ _ => False) d0.
Proof. split; [reflexivity|]. intros x y _ _. right. split; [tauto|]. now intros j _. Qed.

Lemma pixel_index_inj (n x y x0 y0 : Z) :
  0 <= x < n -> 0 <= x0 < n -> y * n + x = y0 * n + x0 -> x = x0 /\ y = y0.
Proof.
  intros Hx Hx0 Heq.
  assert (y = y0)
    by (destruct (Z.lt_trichotomy y y0) as [Hlt|[Heq'|Hgt]]; [exfalso; nia|exact Heq'|exfalso; nia]).
  subst. lia.
Qed.

(** The three stores at pixel [(x0, y0)] add that pixel to the painted ones. *)
Lemma paint_one (A : Dither.Rgb) (n : Z) (d0 : list Z) (Q : Z -> Z -> Prop) (d : list Z)
    (x0 y0 : Z) :
  Z.of_nat (length d0) = 4 * (n * n) ->
  paintedWhere A n d0 Q d ->
  0 <= x0 < n -> 0 <= y0 < n ->
  exists d',
    (d1 ← Dither.store d ((y0 * n + x0) * 4) (Dither.r A);
     d2 ← Dither.store d1 ((y0 * n + x0) * 4 + 1) (Dither.g A);
     Dither.store d2 ((y0 * n + x0) * 4 + 2) (Dither.b A)) = Ok d'
    /\ paintedWhere A n d0 (fun x y => Q x y \/ (x = x0 /\ y = y0)) d'.
Proof.
  intros Hlen0 [Hlen Hpix] Hx0 Hy0.
  set (k0 := y0 * n + x0).
  assert (Hk0 : 0 <= k0 < n * n) by (unfold k0; nia).
  assert (Hd : Z.of_nat (length d) = 4 * (n * n)) by (rewrite Hlen; exact Hlen0).
  eexists. split.
  - rewrite store_Ok by lia. cbn.
    rewrite store_Ok by (rewrite length_insert; lia). cbn.
    rewrite store_Ok by (rewrite !length_insert; lia). reflexivity.
  - split; [now rewrite !length_insert|].
    intros x y Hx Hy. pose proof (Hpix x y Hx Hy) as Hxy.
    assert (Hk : 0 <= y * n + x) by nia.
    remember (y * n + x) as k eqn:Ek.
    destruct (Z.eq_dec k k0) as [Heq|Hne].
    + assert (x = x0 /\ y = y0) as [-> ->]
        by (apply (pixel_index_inj n); [assumption|assumption|unfold k0 in Heq; lia]).
      subst k. fold k0. fold k0 in Hxy.
      left. split; [right; split; reflexivity|].
      assert (Ha : byteAt d (4 * k0 + 3) = byteAt d0 (4 * k0 + 3)).
      { destruct Hxy as [[_ (_ & _ & _ & H3)]|[_ Hkept]]; [exact H3|].
        apply Hkept. lia. }
      unfold paintedPx. split; [|split; [|split]].
      * rewrite !byteAt_insert_ne by lia. replace (4 * k0) with (k0 * 4) by lia.
        apply byteAt_insert_eq. lia.
      * rewrite byteAt_insert_ne by lia. replace (4 * k0 + 1) with (k0 * 4 + 1) by lia.
        apply byteAt_insert_eq. rewrite length_insert. lia.
      * replace (4 * k0 + 2) with (k0 * 4 + 2) by lia.
        apply byteAt_insert_eq. rewrite !length_insert. lia.
      * now rewrite !byteAt_insert_ne by lia.
    + assert (Hne' : ~ (x = x0 /\ y = y0)) by (intros [-> ->]; apply Hne; now subst k).
      assert (Hsame : forall o, 0 <= o < 4 ->
        byteAt (<[Z.to_nat (k0 * 4 + 2) := Dither.b A]>
                 (<[Z.to_nat (k0 * 4 + 1) := Dither.g A]>
                    (<[Z.to_nat (k0 * 4) := Dither.r A]> d))) (4 * k + o)
        = byteAt d (4 * k + o))
        by (intros o Ho; now rewrite !byteAt_insert_ne by lia).
      pose proof (Hsame 0 ltac:(lia)) as H0. rewrite Z.add_0_r in H0.
      destruct Hxy as [[HQ (P0 & P1 & P2 & P3)]|[HQ Hkept]].
      * left. split; [now left|]. unfold paintedPx.
        rewrite H0, !Hsame by lia. repeat split; assumption.
      * right. split; [tauto|]. intros j Hj. rewrite Hsame by lia. now apply Hkept.
Qed.

Lemma seqZ_lookup_index (m : Z) (i : nat) (x : Z) :
  seqZ 0 m !! i = Some x -> x = Z.of_nat i /\ Z.of_nat i < m.
Proof. intros Hl. apply lookup_seqZ in Hl. lia. Qed.

Lemma holds_mono {A} (P : fault -> Prop) (I J : A -> Prop) (res : result A) :
  (forall a, I a -> J a) -> holds P I res -> holds P J res.
Proof. intros HIJ. destruct res as [a|f]; cbn; auto. Qed.

(** The pixel loops of a cell paint the cell's square, clipped to the
    canvas. *)
Lemma paintCell_exact (A : Dither.Rgb) (n s gx gy : Z) (d0 : list Z) (Q : Z -> Z -> Prop)
    (d : list Z) :
  Z.of_nat (length d0) = 4 * (n * n) ->
  0 <= s ->
  paintedWhere A n d0 Q d ->
  holds (fun _ => False)
    (paintedWhere A n d0
       (fun x y => Q x y \/ ((gx - 1) * s <= x < gx * s /\ (gy - 1) * s <= y < gy * s)))
    (Dither.paintCell n s A gx gy d).
Proof.
  intros Hlen0 Hs Hd. unfold Dither.paintCell, Dither.padding.
  eapply holds_mono;
    [| apply (forEach_counted (fun _ => False)
         (fun (j : nat) => paintedWhere A n d0
            (fun x y => Q x y \/ ((gx - 1) * s <= x < gx * s
                                  /\ (gy - 1) * s <= y < (gy - 1) * s + Z.of_nat j)))
         (seqZ 0 s))].
  - intros d'. rewrite length_seqZ. apply paintedWhere_ext. intros x y _ _.
    rewrite Z2Nat.id by lia. intuition lia.
  - intros j d1 py Hpy Hd1. apply seqZ_lookup_index in Hpy as [-> Hj].
    eapply holds_mono;
      [| apply (forEach_counted (fun _ => False)
           (fun (i : nat) => paintedWhere A n d0
              (fun x y => (Q x y \/ ((gx - 1) * s <= x < gx * s
                                     /\ (gy - 1) * s <= y < (gy - 1) * s + Z.of_nat j))
                          \/ (y = (gy - 1) * s + Z.of_nat j
                              /\ (gx - 1) * s <= x < (gx - 1) * s + Z.of_nat i)))
           (seqZ 0 s))].
    + intros d'. rewrite length_seqZ. apply paintedWhere_ext. intros x y _ _.
      rewrite Z2Nat.id by lia. intuition lia.
    + intros i d2 px Hpx Hd2. apply seqZ_lookup_index in Hpx as [-> Hi].
      set (x0 := (gx - 1) * s + Z.of_nat i). set (y0 := (gy - 1) * s + Z.of_nat j).
      destruct (Z.ltb_spec x0 0);
        [cbn; eapply paintedWhere_ext; [|exact Hd2]; intros x y Hx Hy; intuition lia|].
      destruct (Z.ltb_spec y0 0);
        [cbn; eapply paintedWhere_ext; [|exact Hd2]; intros x y Hx Hy; intuition lia|].
      destruct (Z.geb_spec x0 n);
        [cbn; eapply paintedWhere_ext; [|exact Hd2]; intros x y Hx Hy; intuition lia|].
      destruct (Z.geb_spec y0 n);
        [cbn; eapply paintedWhere_ext; [|exact Hd2]; intros x y Hx Hy; intuition lia|].
      cbn [orb].
      destruct (paint_one A n d0 _ d2 x0 y0 Hlen0 Hd2 ltac:(lia) ltac:(lia)) as (d' & Hd' & Hp).
      rewrite Hd'. cbn. eapply paintedWhere_ext; [|exact Hp].
      intros x y Hx Hy. unfold x0, y0. intuition lia.
    + eapply paintedWhere_ext; [|exact Hd1]. intros x y _ _. cbn. intuition lia.
  - eapply paintedWhere_ext; [|exact Hd]. intros x y _ _. cbn. intuition lia.
Qed.

Lemma cell_iff (s x g : Z) : 0 < s -> ((g - 1) * s <= x < g * s <-> cellOf s x = g).
Proof.
  intros Hs. unfold cellOf, Dither.padding.
  pose proof (Z.div_mod x s ltac:(lia)) as Hdm.
  pose proof (Z.mod_pos_bound x s Hs) as Hm.
  split; [intros Hx | intros <-]; nia.
Qed.

Lemma cellOf_pos (s x : Z) : 0 < s -> 0 <= x -> 1 <= cellOf s x.
Proof.
  intros Hs Hx. unfold cellOf, Dither.padding.
  pose proof (Z.div_pos x s Hx Hs). lia.
Qed.

(** The grid loops paint the squares of the cells that are not skipped. *)
Lemma paintGrid_exact (value : Z -> Z -> Num.number) (A : Dither.Rgb) (n : Z)
    (dotScale : Num.number) (s cells : Z) (d0 : list Z) :
  Z.of_nat (length d0) = 4 * (n * n) ->
  loopCount dotScale = Ok s -> 0 < s ->
  holds (fun _ => False)
    (paintedWhere A n d0 (fun x y => accentCell value cells (cellOf s x) (cellOf s y)))
    (Dither.paintGrid value n dotScale cells A d0).
Proof.
  intros Hlen0 Hds Hs. unfold Dither.paintGrid.
  eapply holds_mono;
    [| apply (forEach_counted (fun _ => False)
         (fun (j : nat) => paintedWhere A n d0
            (fun x y => cellOf s y < Z.of_nat j
                        /\ accentCell value cells (cellOf s x) (cellOf s y)))
         (seqZ 0 cells))].
  - intros d'. rewrite length_seqZ. apply paintedWhere_ext. intros x y Hx Hy.
    pose proof (cellOf_pos s y Hs ltac:(lia)).
    split; [now intros [_ Hacc]|]. intros Hacc. split; [|exact Hacc].
    destruct Hacc as (_ & Hc & _). lia.
  - intros j d1 gy Hgy Hd1. apply seqZ_lookup_index in Hgy as [-> Hj].
    eapply holds_mono;
      [| apply (forEach_counted (fun _ => False)
           (fun (i : nat) => paintedWhere A n d0
              (fun x y => (cellOf s y < Z.of_nat j
                           /\ accentCell value cells (cellOf s x) (cellOf s y))
                          \/ (cellOf s y = Z.of_nat j /\ cellOf s x < Z.of_nat i
                              /\ accentCell value cells (cellOf s x) (cellOf s y))))
           (seqZ 0 cells))].
    + intros d'. rewrite length_seqZ. apply paintedWhere_ext. intros x y Hx Hy.
      pose proof (cellOf_pos s x Hs ltac:(lia)).
      split.
      * intros [[Hlt Hacc]|(Hy' & Hx' & Hacc)]; (split; [lia|exact Hacc]).
      * intros [Hlt Hacc].
        destruct (Z.eq_dec (cellOf s y) (Z.of_nat j)) as [Ey|Ny].
        -- right. split; [exact Ey|]. split; [|exact Hacc].
           destruct Hacc as (Hc & _ & _). lia.
        -- left. split; [lia|exact Hacc].
    + intros i d2 gx Hgx Hd2. apply seqZ_lookup_index in Hgx as [-> Hi].
      destruct (Num.gtb (value (Z.of_nat i) (Z.of_nat j))
                  (Dither.bayerAt (Z.of_nat j) (Z.of_nat i))) eqn:Eskip.
      * cbn. eapply paintedWhere_ext; [|exact Hd2]. intros x y _ _.
        split.
        { intros [Hdone|(Hy & Hx & Hacc)]; [now left|].
          right. split; [exact Hy|]. split; [lia|exact Hacc]. }
        intros [Hdone|(Hy & Hx & Hacc)]; [now left|].
        destruct (Z.eq_dec (cellOf s x) (Z.of_nat i)) as [Ex|Nx].
        -- exfalso. destruct Hacc as (_ & _ & Hacc). rewrite Ex, Hy in Hacc. congruence.
        -- right. split; [exact Hy|]. split; [lia|exact Hacc].
      * rewrite Hds. cbn [mbind result_bind].
        eapply holds_mono; [|apply (paintCell_exact A n s (Z.of_nat i) (Z.of_nat j) d0 _ d2
                                       Hlen0 ltac:(lia) Hd2)].
        intros d'. apply paintedWhere_ext. intros x y _ _.
        rewrite (cell_iff s x (Z.of_nat i) Hs), (cell_iff s y (Z.of_nat j) Hs).
        unfold accentCell. split.
        -- intros [[Hdone|Hrow]|[Ex Ey]]; [now left|right|right].
           ++ destruct Hrow as (Hy & Hx & Hacc). split; [exact Hy|]. split; [lia|exact Hacc].
           ++ rewrite Ex, Ey. split; [reflexivity|]. split; [lia|]. split; [lia|]. split; [lia|].
              exact Eskip.
        -- intros [Hdone|(Hy & Hx & Hacc)]; [left; now left|].
           destruct (Z.eq_dec (cellOf s x) (Z.of_nat i)) as [Ex|Nx]; [right; now split|].
           left. right. split; [exact Hy|]. split; [lia|exact Hacc].
    + eapply paintedWhere_ext; [|exact Hd1]. intros x y Hx Hy. cbn.
      pose proof (cellOf_pos s x Hs ltac:(lia)).
      split; [now left|]. intros [Hdone|(_ & Hx' & _)]; [exact Hdone|lia].
  - eapply paintedWhere_ext; [|apply paintedWhere_start]. intros x y Hx Hy. cbn.
    pose proof (cellOf_pos s y Hs ltac:(lia)).
    split; [tauto|]. intros [Hlt _]. lia.
Qed.

(** ** The tone index of generateColor *)

Lemma digits2_pos_upper (p : positive) : Zpos p < 2 ^ Zpos (digits2_pos p).
Proof.
  induction p as [p IH|p IH|]; cbn [digits2_pos]; [| |reflexivity].
  - rewrite Pos2Z.inj_succ, Z.pow_succ_r by lia. lia.
  - rewrite Pos2Z.inj_succ, Z.pow_succ_r by lia. lia.
Qed.

Lemma digits2_pos_mono (p q : positive) :
  Zpos p <= Zpos q -> Zpos (digits2_pos p) <= Zpos (digits2_pos q).
Proof.
  intros Hpq. apply digits2_pos_le; [lia|].
  pose proof (digits2_pos_upper q). lia.
Qed.

Lemma shr_1_m (mrs : shr_record) : 0 <= shr_m mrs -> shr_m (shr_1 mrs) = shr_m mrs / 2.
Proof.
  destruct mrs as [m r s]. cbn [shr_m]. intros Hm. rewrite <- Z.div2_div.
  destruct m as [|[p|p|]|p]; try reflexivity. lia.
Qed.

Lemma iter_shr_m (p : positive) (mrs : shr_record) :
  0 <= shr_m mrs ->
  shr_m (SpecFloat.iter_pos shr_1 p mrs) = shr_m mrs / 2 ^ Zpos p.
Proof.
  revert mrs. induction p as [p IH|p IH|]; intros mrs Hm; cbn [SpecFloat.iter_pos].
  - assert (H1 : 0 <= shr_m (shr_1 mrs))
      by (rewrite shr_1_m by exact Hm; apply Z.div_pos; lia).
    assert (H2 : 0 <= shr_m (SpecFloat.iter_pos shr_1 p (shr_1 mrs)))
      by (rewrite IH by exact H1; apply Z.div_pos; [exact H1|]; apply Z.pow_pos_nonneg; lia).
    rewrite IH by exact H2. rewrite IH by exact H1. rewrite shr_1_m by exact Hm.
    rewrite !Z.div_div by (try apply Z.pow_pos_nonneg; lia).
    f_equal. assert (E : Zpos p~1 = 1 + Zpos p + Zpos p) by lia.
    rewrite E, !Z.pow_add_r by lia. rewrite Z.pow_1_r. lia.
  - assert (H2 : 0 <= shr_m (SpecFloat.iter_pos shr_1 p mrs))
      by (rewrite IH by exact Hm; apply Z.div_pos; [exact Hm|]; apply Z.pow_pos_nonneg; lia).
    rewrite IH by exact H2. rewrite IH by exact Hm.
    rewrite !Z.div_div by (try apply Z.pow_pos_nonneg; lia).
    f_equal. assert (E : Zpos p~0 = Zpos p + Zpos p) by lia.
    rewrite E, !Z.pow_add_r by lia. lia.
  - rewrite shr_1_m by exact Hm. reflexivity.
Qed.

(** What [shr] leaves of a non-negative mantissa: the quotient, at the
    exponent raised by the shift. *)
Lemma shr_value (m : Z) (r s : bool) (e n : Z) :
  0 <= m ->
  let '(mrs, e') := shr (Build_shr_record m r s) e n in
  shr_m mrs = m / 2 ^ Z.max n 0 /\ e' = e + Z.max n 0.
Proof.
  intros Hm. destruct n as [|p|p]; cbn [shr].
  - cbn [shr_m]. rewrite Z.div_1_r. lia.
  - rewrite iter_shr_m by exact Hm. cbn [shr_m]. split; [reflexivity|lia].
  - cbn [shr_m]. change (Z.max (Zneg p) 0) with 0. rewrite Z.div_1_r. lia.
Qed.

Lemma round_nearest_even_bound (m : Z) (l : location) :
  m <= round_nearest_even m l <= m + 1.
Proof.
  destruct l as [|[| |]]; cbn [round_nearest_even]; try lia.
  destruct (Z.even m); lia.
Qed.

Lemma Zdigits2_le (m : Z) (k : Z) : 0 <= k -> 0 <= m <= 2 ^ k -> Zdigits2 m <= k + 1.
Proof.
  intros Hk Hm. destruct m as [|p|p]; cbn [Zdigits2]; [lia| |lia].
  apply digits2_pos_le; [lia|]. rewrite Z.pow_add_r, Z.pow_1_r by lia. lia.
Qed.

(** The rounded value of a positive [M * 2^e]: +0 or a positive double
    whose mantissa has at most 53 bits (or is 2^53), at an exponent that
    the bit length of [M] bounds. *)
Lemma round_aux_bound (M : positive) (e : Z) :
  let top := Z.max (Z.max e (Zpos (digits2_pos M) + e - 53)) (-1074) in
  top < 971 ->
  binary_round_aux 53 1024 false (Zpos M) e loc_Exact = S754_zero false
  \/ exists m3 e3,
       binary_round_aux 53 1024 false (Zpos M) e loc_Exact = S754_finite false m3 e3
       /\ Zpos m3 <= 2 ^ 53 /\ e3 <= top + 1.
Proof.
  intros top Htop. unfold binary_round_aux, shr_fexp, fexp, emin.
  cbn [Zdigits2 shr_record_of_loc].
  set (D := Zpos (digits2_pos M)) in *.
  set (n1 := Z.max (D + e - 53) (3 - 1024 - 53) - e).
  pose proof (shr_value (Zpos M) false false e n1 ltac:(lia)) as H1.
  destruct (shr (Build_shr_record (Zpos M) false false) e n1) as [mrs1 e1].
  destruct H1 as [Hm1 He1].
  pose proof (digits2_pos_upper M) as HM. fold D in HM.
  assert (Hpow : 0 < 2 ^ Z.max n1 0) by (apply Z.pow_pos_nonneg; lia).
  assert (Hm1b : 0 <= shr_m mrs1 < 2 ^ 53).
  { rewrite Hm1. split; [apply Z.div_pos; lia|].
    apply Z.div_lt_upper_bound; [lia|].
    rewrite <- Z.pow_add_r by lia.
    apply Z.lt_le_trans with (2 ^ D); [exact HM|].
    apply Z.pow_le_mono_r; lia. }
  assert (He1b : -1074 <= e1 <= top) by (unfold top, n1 in *; lia).
  pose proof (round_nearest_even_bound (shr_m mrs1) (loc_of_shr_record mrs1)) as Hr.
  set (m2 := round_nearest_even (shr_m mrs1) (loc_of_shr_record mrs1)) in *.
  assert (Hd2 : Zdigits2 m2 <= 54) by (apply (Zdigits2_le m2 53); lia).
  set (n2 := Z.max (Zdigits2 m2 + e1 - 53) (3 - 1024 - 53) - e1).
  pose proof (shr_value m2 false false e1 n2 ltac:(lia)) as H2.
  destruct (shr (Build_shr_record m2 false false) e1 n2) as [mrs2 e2].
  destruct H2 as [Hm2 He2].
  assert (Hpow2 : 0 < 2 ^ Z.max n2 0) by (apply Z.pow_pos_nonneg; lia).
  assert (Hm2b : 0 <= shr_m mrs2 <= 2 ^ 53).
  { rewrite Hm2. split; [apply Z.div_pos; lia|].
    apply Z.le_trans with m2; [|lia].
    apply Z.div_le_upper_bound; [lia|]. nia. }
  assert (He2b : e2 <= top + 1) by (unfold n2 in *; lia).
  destruct (shr_m mrs2) as [|m3|m3]; [left; reflexivity | right | lia].
  exists m3, e2. replace (e2 <=? 1024 - 53) with true by (symmetry; apply Z.leb_le; lia).
  split; [reflexivity|]. split; [lia|exact He2b].
Qed.

Lemma digits2_pos_mul (p q : positive) :
  Zpos (digits2_pos (p * q)) <= Zpos (digits2_pos p) + Zpos (digits2_pos q).
Proof.
  apply digits2_pos_le; [lia|].
  pose proof (digits2_pos_upper p). pose proof (digits2_pos_upper q).
  rewrite Z.pow_add_r by lia. rewrite Pos2Z.inj_mul. nia.
Qed.

(** A double below 1 times an array length: +0 or a positive double below
    2^35. *)
Lemma mul_small (mx my : positive) (ex ey : Z) :
  Zpos (digits2_pos mx) <= 53 -> ex <= -52 ->
  Zpos (digits2_pos my) = 53 -> ey <= -21 ->
  Num.mul (S754_finite false mx ex) (S754_finite false my ey) = S754_zero false
  \/ exists m3 e3,
       Num.mul (S754_finite false mx ex) (S754_finite false my ey) = S754_finite false m3 e3
       /\ Zpos m3 <= 2 ^ 53 /\ e3 <= -19.
Proof.
  intros Hdx Hex Hdy Hey. unfold Num.mul, SFmul, Num.prec, Num.emax. cbn [xorb].
  pose proof (digits2_pos_mul mx my) as HD.
  pose proof (Pos2Z.is_pos (digits2_pos (mx * my))) as HDpos.
  destruct (round_aux_bound (mx * my) (ex + ey)) as [Hz|(m3 & e3 & Hf & Hm & He)].
  - cbv zeta. lia.
  - left. exact Hz.
  - right. exists m3, e3. split; [exact Hf|]. split; [exact Hm|]. cbv zeta in He. lia.
Qed.

Lemma floor_small (m : positive) (e : Z) :
  Zpos m <= 2 ^ 53 -> e <= -19 ->
  Num.floor (S754_finite false m e) = S754_zero false
  \/ exists k, 0 < k < 2 ^ 35 /\ Num.floor (S754_finite false m e) = Num.ofZ k.
Proof.
  intros Hm He. unfold Num.floor, Num.integral.
  assert (Hk : 0 <= Num.floorZ (S754_finite false m e) < 2 ^ 35).
  { unfold Num.floorZ, Num.scaled.
    replace e with (- (- e)) by lia. rewrite Z.shiftl_opp_r, Z.shiftr_div_pow2 by lia.
    assert (Hp : 2 ^ 19 <= 2 ^ (- e)) by (apply Z.pow_le_mono_r; lia).
    split; [apply Z.div_pos; lia|].
    apply Z.div_lt_upper_bound; [lia|].
    apply Z.le_lt_trans with (2 ^ 53); [exact Hm|].
    apply Z.lt_le_trans with (2 ^ 19 * 2 ^ 35); [|apply Z.mul_le_mono_nonneg_r; lia].
    rewrite <- Z.pow_add_r by lia. apply Z.pow_lt_mono_r; lia. }
  destruct (Num.floorZ (S754_finite false m e)) as [|k|k] eqn:E; [left; reflexivity| |lia].
  right. exists (Zpos k). split; [lia|reflexivity].
Qed.

(** [binary_normalize] is exact on an integer that fits 53 bits, whatever
    power of two it is scaled by. *)
Lemma normalize_scaled (q j : positive) (t : Z) :
  0 <= t -> Zpos q = Zpos j * 2 ^ t -> Zpos (digits2_pos j) + t <= 53 ->
  binary_normalize 53 1024 (Zpos q) (- t) false = Num.ofZ (Zpos j).
Proof.
  intros Ht Hq Hd.
  assert (Hdq : Zpos (digits2_pos q) = Zpos (digits2_pos j) + t).
  { destruct t as [|t'|t']; [| |lia].
    - rewrite Z.pow_0_r, Z.mul_1_r in Hq. injection Hq as ->. lia.
    - rewrite <- iter_xO_value in Hq. injection Hq as ->. apply digits2_pos_iter_xO. }
  pose proof (Pos2Z.is_pos (digits2_pos j)) as Hdj.
  rewrite ofZ_pos by lia.
  unfold binary_normalize, binary_round, shl_align, fexp, emin. rewrite Hdq.
  replace (Z.max (Zpos (digits2_pos j) + t + - t - 53) (3 - 1024 - 53))
    with (Zpos (digits2_pos j) - 53) by lia.
  assert (Hval : forall mz : positive,
            Zpos mz = Zpos q * 2 ^ (53 - Zpos (digits2_pos j) - t) -> mz = mant53 j).
  { intros mz Hmz. apply Pos2Z.inj. rewrite Hmz, Hq, mant53_value by lia.
    rewrite <- Z.mul_assoc, <- Z.pow_add_r by lia. do 2 f_equal. lia. }
  destruct (Zpos (digits2_pos j) - 53 - - t) as [|d|d] eqn:Ed; [| lia |].
  - rewrite round_aux_canonical by lia.
    f_equal; [|lia]. apply Hval. replace (53 - Zpos (digits2_pos j) - t) with 0 by lia.
    rewrite Z.pow_0_r. lia.
  - rewrite round_aux_canonical; [| rewrite digits2_pos_iter_xO; lia | lia].
    f_equal. apply Hval. rewrite iter_xO_value. do 2 f_equal. lia.
Qed.

(** The remainder of two positive integers below 2^53 is the integer
    remainder, exactly. *)
Lemma rem_int (k L : Z) :
  0 < k < 2 ^ 53 -> 0 < L < 2 ^ 53 ->
  Num.rem (Num.ofZ k) (Num.ofZ L)
  = if k mod L =? 0 then S754_zero false else Num.ofZ (k mod L).
Proof.
  intros Hk HL. destruct k as [|pk|pk]; [lia| |lia]. destruct L as [|pL|pL]; [lia| |lia].
  assert (Hdk : Zpos (digits2_pos pk) <= 53) by (apply digits2_pos_le; lia).
  assert (HdL : Zpos (digits2_pos pL) <= 53) by (apply digits2_pos_le; lia).
  pose proof (Pos2Z.is_pos (digits2_pos pk)) as Hdk0.
  pose proof (Pos2Z.is_pos (digits2_pos pL)) as HdL0.
  rewrite (ofZ_pos pk), (ofZ_pos pL) by assumption. unfold Num.rem.
  set (dk := Zpos (digits2_pos pk)) in *. set (dL := Zpos (digits2_pos pL)) in *.
  set (t := 53 - Z.min dk dL).
  replace (Z.min (dk - 53) (dL - 53)) with (- t) by (unfold t; lia).
  assert (Hsk : Z.shiftl (Zpos (mant53 pk)) (dk - 53 - - t) = Zpos pk * 2 ^ t).
  { rewrite Z.shiftl_mul_pow2 by (unfold t; lia). rewrite mant53_value by assumption. fold dk.
    rewrite <- Z.mul_assoc, <- Z.pow_add_r by (unfold t; lia). do 2 f_equal. lia. }
  assert (HsL : Z.shiftl (Zpos (mant53 pL)) (dL - 53 - - t) = Zpos pL * 2 ^ t).
  { rewrite Z.shiftl_mul_pow2 by (unfold t; lia). rewrite mant53_value by assumption. fold dL.
    rewrite <- Z.mul_assoc, <- Z.pow_add_r by (unfold t; lia). do 2 f_equal. lia. }
  rewrite Hsk, HsL.
  assert (Hpow : 0 < 2 ^ t) by (apply Z.pow_pos_nonneg; unfold t; lia).
  rewrite Z.mul_rem_distr_r by lia.
  rewrite Z.rem_mod_nonneg by lia.
  pose proof (Z.mod_pos_bound (Zpos pk) (Zpos pL) ltac:(lia)) as Hj.
  assert (Hjk : Zpos pk mod Zpos pL <= Zpos pk) by (apply Z.mod_le; lia).
  destruct (Zpos pk mod Zpos pL) as [|j|j] eqn:Ej; [reflexivity| |lia].
  change (Zpos j =? 0) with false. cbv iota.
  destruct (Zpos j * 2 ^ t) as [|q|q] eqn:Eq; [lia| |lia].
  apply normalize_scaled; [unfold t; lia | symmetry; exact Eq |].
  pose proof (digits2_pos_mono j pk ltac:(lia)) as M1.
  pose proof (digits2_pos_mono j pL ltac:(lia)) as M2.
  fold dk in M1. fold dL in M2. unfold t. lia.
Qed.

Lemma ceilZ_ofZ (n : Z) : 0 <= n < 2 ^ 53 -> Num.ceilZ (Num.ofZ n) = n.
Proof.
  intros Hn. destruct n as [|p|p]; [reflexivity| |lia].
  assert (Hd : Zpos (digits2_pos p) <= 53) by (apply digits2_pos_le; lia).
  rewrite ofZ_pos by exact Hd. unfold Num.ceilZ, Num.scaled.
  pose proof (Pos2Z.is_pos (digits2_pos p)).
  change (- Zpos (mant53 p)) with (- (Zpos (mant53 p))). rewrite mant53_value by exact Hd.
  replace (Zpos (digits2_pos p) - 53) with (- (53 - Zpos (digits2_pos p))) by lia.
  rewrite Z.shiftl_opp_r, Z.shiftr_div_pow2 by lia.
  rewrite <- Z.mul_opp_l, Z.div_mul by (apply Z.pow_nonzero; lia). lia.
Qed.

Lemma lookupNum_ofZ {A} (xs : list A) (j : Z) :
  0 <= j < 2 ^ 53 -> lookupNum xs (Num.ofZ j) = xs !! Z.to_nat j.
Proof.
  intros Hj. pose proof (floorZ_ofZ j Hj) as Hf. pose proof (ceilZ_ofZ j Hj) as Hc.
  destruct j as [|p|p]; [reflexivity| |lia].
  assert (Hd : Zpos (digits2_pos p) <= 53) by (apply digits2_pos_le; lia).
  rewrite ofZ_pos in * by exact Hd. unfold lookupNum.
  rewrite Hf, Hc, Z.eqb_refl. reflexivity.
Qed.

Lemma unitDouble_cases (x : Num.number) :
  unitDouble x ->
  (exists s, x = S754_zero s)
  \/ exists m e, x = S754_finite false m e /\ Zpos (digits2_pos m) <= 53 /\ e <= -52.
Proof.
  intros [Hvalid [Hle Hlt]].
  destruct x as [s|s| |s m e]; [left; now exists s| | |].
  - destruct s; [discriminate Hle|discriminate Hlt].
  - discriminate Hle.
  - destruct s; [discriminate Hle|]. right. exists m, e. split; [reflexivity|].
    cbn [valid_binary] in Hvalid. unfold bounded, canonical_mantissa, fexp, emin in Hvalid.
    apply andb_true_iff in Hvalid as [Hc _]. apply Z.eqb_eq in Hc.
    split; [lia|].
    change 1%num with (S754_finite false 4503599627370496 (-52)) in Hlt.
    unfold Num.ltb, SFltb, SFcompare in Hlt.
    destruct (Z.compare_spec e (-52)) as [He|He|He]; [lia|lia|discriminate Hlt].
Qed.

(** [tones[Math.floor(seed * tones.length) % tones.length]] is an element
    of the array. *)
Lemma tone_lookup {A} (xs : list A) (seed : Num.number) :
  xs <> [] -> Z.of_nat (length xs) < 2 ^ 32 -> unitDouble seed ->
  exists j x,
    lookupNum xs (Num.rem (Num.floor (Num.mul seed (Num.ofZ (Z.of_nat (length xs)))))
                    (Num.ofZ (Z.of_nat (length xs))))
    = Some x
    /\ xs !! j = Some x.
Proof.
  intros Hne Hlen Hseed.
  destruct xs as [|x0 xs'] eqn:Exs; [contradiction|]. rewrite <- Exs in *.
  assert (H0 : xs !! 0%nat = Some x0) by now rewrite Exs.
  assert (HL0 : 0 < Z.of_nat (length xs)) by (rewrite Exs; cbn [length]; lia).
  remember (Z.of_nat (length xs)) as L eqn:EL.
  destruct L as [|pL|pL]; [lia| |lia].
  assert (HdL : Zpos (digits2_pos pL) <= 32) by (apply digits2_pos_le; lia).
  pose proof (Pos2Z.is_pos (digits2_pos pL)) as HdL0.
  assert (Hfin : Num.ofZ (Zpos pL)
                 = S754_finite false (mant53 pL) (Zpos (digits2_pos pL) - 53))
    by (apply ofZ_pos; lia).
  assert (Hzero : forall s,
            lookupNum xs (Num.rem (S754_zero s) (Num.ofZ (Zpos pL))) = Some x0)
    by (intros s; rewrite Hfin; exact H0).
  destruct (unitDouble_cases seed Hseed) as [[s ->]|(m & e & -> & Hd & He)].
  { exists 0%nat, x0. split; [|exact H0].
    replace (Num.mul (S754_zero s) (Num.ofZ (Zpos pL))) with (S754_zero (xorb s false))
      by (rewrite Hfin; reflexivity).
    apply Hzero. }
  destruct (mul_small m (mant53 pL) e (Zpos (digits2_pos pL) - 53) Hd He
              ltac:(apply mant53_digits; lia) ltac:(lia))
    as [Hmul | (m3 & e3 & Hmul & Hm3 & He3)]; rewrite <- Hfin in Hmul; rewrite Hmul.
  { exists 0%nat, x0. split; [apply Hzero|exact H0]. }
  destruct (floor_small m3 e3 Hm3 He3) as [-> | (k & Hk & ->)].
  { exists 0%nat, x0. split; [apply Hzero|exact H0]. }
  rewrite rem_int by lia.
  pose proof (Z.mod_pos_bound k (Zpos pL) ltac:(lia)) as Hj.
  destruct (Z.eqb_spec (k mod Zpos pL) 0) as [_|_].
  { exists 0%nat, x0. split; exact H0. }
  rewrite lookupNum_ofZ by lia.
  destruct (xs !! Z.to_nat (k mod Zpos pL)) as [x|] eqn:Ex.
  - now exists (Z.to_nat (k mod Zpos pL)), x.
  - apply lookup_ge_None in Ex. lia.
Qed.

Lemma valid_seed (u : Z) :
  0 <= u < 2 ^ 32 -> unitDouble (Num.div (Num.ofZ u) (Num.ofZ 4294967296)).
Proof.
  intros Hu. split; [|apply (unit_of_uint32 u Hu)].
  destruct u as [|p|p]; [reflexivity| |lia].
  assert (Hd : Zpos (digits2_pos p) <= 32) by (apply digits2_pos_le; lia).
  pose proof (Pos2Z.is_pos (digits2_pos p)) as Hd0.
  rewrite ofZ_pos by lia. rewrite div_two32; [| apply mant53_digits; lia | lia].
  cbn [valid_binary]. unfold bounded, canonical_mantissa, fexp, emin.
  rewrite mant53_digits by lia.
  apply andb_true_iff. split; [apply Z.eqb_eq|apply Z.leb_le]; lia.
Qed.

Lemma rng_next_valid (s : Z) : unitDouble (snd (rng_next s)).
Proof. unfold rng_next. cbn [snd]. apply valid_seed, shr0_range. Qed.

Lemma rng_draw_valid (count : nat) (s : Z) : Forall unitDouble (rng_draw count s).
Proof.
  revert s. induction count as [|n IH]; intros s; [constructor|].
  cbn [rng_draw]. pose proof (rng_next_valid s) as Hx.
  destruct (rng_next s) as [s' x]. constructor; [exact Hx | apply IH].
Qed.

(** With tones, [generateColor] finds the tone it indexes. *)
Lemma generateColor_defined (seed lSeed cSeed : Num.number) (tones : option (list OklchColor))
    (isSecondary : bool) (baseHue : option Num.number) :
  match tones with Some ts => Z.of_nat (length ts) < 2 ^ 32 | None => True end ->
  unitDouble seed ->
  is_Some (generateColor seed lSeed cSeed tones isSecondary baseHue).
Proof.
  intros Hlen Hseed.
  destruct tones as [[|t ts]|];
    [unfold generateColor; destruct isSecondary; eexists; reflexivity| |
     unfold generateColor; destruct isSecondary; eexists; reflexivity].
  unfold generateColor.
  destruct (tone_lookup (t :: ts) seed ltac:(discriminate) Hlen Hseed) as (j & tone & -> & _).
  eexists. reflexivity.
Qed.

Lemma length_omap_le {A B} (f : A -> option B) (xs : list A) :
  (length (omap f xs) <= length xs)%nat.
Proof.
  induction xs as [|x xs IH]; [reflexivity|]. cbn [omap list_omap length].
  destruct (f x); cbn [length]; lia.
Qed.

(** The palette exists whenever the array of seeds can be created. *)
Lemma hashToColors_defined `{Host} (hash : jsstring) (tones : option (list jsstring))
    (count : Z) :
  arrayOfTones tones ->
  if count * 3 <? 2 ^ 32
  then exists palette,
      hashToColors hash tones count = Ok palette /\ length palette = Z.to_nat count
  else hashToColors hash tones count = Fail RangeError.
Proof.
  intros Htones. destruct (Z.ltb_spec (count * 3) (2 ^ 32)) as [Hsmall|Hbig].
  2:{ unfold hashToColors, hashToSeeds.
      rewrite (arrayLength_Fail (count * 3)) by exact Hbig. reflexivity. }
  unfold hashToColors. rewrite hashToSeeds_Ok by exact Hsmall.
  cbn [mbind result_bind]. rewrite arrayLength_Ok by lia. cbn [mbind result_bind].
  set (seeds := rng_draw (Z.to_nat (count * 3)) (fnv1a (trim (toLowerCase hash)))).
  set (toneList := match fmap (M := option) (fun ts => omap parseTone ts) tones with
                   | Some ((_ :: _) as p) => Some p
                   | _ => None
                   end).
  assert (Hlist : match toneList with
                  | Some ts => Z.of_nat (length ts) < 2 ^ 32
                  | None => True
                  end).
  { unfold toneList. destruct tones as [ts|]; [|exact I]. cbn [fmap option_fmap option_map].
    pose proof (length_omap_le parseTone ts) as Hle. cbn [arrayOfTones] in Htones.
    destruct (omap parseTone ts) as [|p ps]; [exact I|]. lia. }
  assert (Hseeds : forall i, (i < Z.to_nat count)%nat -> unitDouble (seedAt seeds (i * 3))).
  { intros i Hi. unfold seedAt. apply Forall_nth; [apply rng_draw_valid|].
    unfold seeds. rewrite rng_draw_length. lia. }
  match goal with
  | |- context [mapM ?f ?l] =>
      destruct (mapM_is_Some_2 f l) as [palette Hpal]
  end.
  { apply Forall_forall. intros i Hi%elem_of_seq. cbn [compose].
    apply generateColor_defined; [exact Hlist|apply Hseeds; lia]. }
  rewrite Hpal. exists palette. split; [reflexivity|].
  apply length_mapM in Hpal. rewrite length_seq in Hpal. congruence.
Qed.

(** X7.  [hashToColors] returns a palette of [count] colours for every
    hash and every array of tones, whenever [count * 3] is below 2^32, and
    throws a [RangeError] otherwise.  It never throws a [TypeError]: with
    tones, [Math.floor(seed * tones.length) % tones.length] is an index of
    the array for every seed. *)
Theorem hashToColors_total `{Host} (hash : jsstring) (tones : option (list jsstring))
    (count : Z) :
  arrayOfTones tones ->
  if count * 3 <? 2 ^ 32
  then exists palette,
      hashToColors hash tones count = Ok palette /\ length palette = Z.to_nat count
  else hashToColors hash tones count = Fail RangeError.
Proof. apply hashToColors_defined. Qed.

Lemma hashToColors_total_witness :
  exists palette,
    hashToColors (H := RefHost.host) (jstr "satoshi")
      (Some [jstr "#ff69b4"; jstr "oklch(0.6 0.25 310)"; jstr "red"]) 4 = Ok palette
    /\ length palette = Z.to_nat 4.
Proof.
  apply (hashToColors_total (H := RefHost.host) (jstr "satoshi")
           (Some [jstr "#ff69b4"; jstr "oklch(0.6 0.25 310)"; jstr "red"]) 4).
  cbn. lia.
Defined.

(** ** The entry points *)

Lemma paletteColor_Ok `{Host} (colors : list OklchColor) (i : Z) :
  0 <= i < Z.of_nat (length colors) ->
  exists col, colors !! Z.to_nat i = Some col
              /\ Dither.paletteColor colors i = Ok (Dither.hexToRgb (oklchToHex col)).
Proof.
  intros Hi. destruct (colors !! Z.to_nat i) as [col|] eqn:E;
    [| apply lookup_ge_None in E; lia].
  exists col. split; [reflexivity|].
  rewrite <- (Z2Nat.id i) by lia. now apply paletteColor_lookup.
Qed.

(** What [renderDither] comes to once the two palette reads are made. *)
Lemma renderDither_reads `{Host} (opts : Dither.DitherOptions) :
  (1 <= length (Dither.colors opts))%nat ->
  exists c0 cB,
    Dither.colors opts !! 0%nat = Some c0
    /\ Dither.colors opts !! Z.to_nat (Dither.paletteIndexB (Dither.colors opts)) = Some cB
    /\ Dither.renderDither opts
       = if negb (Dither.animated opts) then
           frame ← Dither.draw (Dither.seeds opts) false (Dither.sizePx opts)
                     (Dither.dotScalePx opts) (Dither.gridSize opts)
                     (Dither.hexToRgb (oklchToHex c0)) (Dither.hexToRgb (oklchToHex cB)) 0%num;
           Ok (None, setupOps opts ++ frame)
         else Ok (Some CancelAnimationFrame, setupOps opts ++ [RequestAnimationFrame]).
Proof.
  intros Hlen.
  destruct (paletteColor_Ok (Dither.colors opts) 0 ltac:(lia)) as (c0 & E0 & HA).
  destruct (paletteColor_Ok (Dither.colors opts) (Dither.paletteIndexB (Dither.colors opts)))
    as (cB & EB & HB); [unfold Dither.paletteIndexB; lia|].
  exists c0, cB. split; [exact E0|]. split; [exact EB|].
  unfold Dither.renderDither. now rewrite HA, HB.
Qed.















(** X20.  The static frame of [renderDither] is the threshold picture
    [thresholdFrame] describes, pixel by pixel. *)
Theorem renderDither_threshold `{Host} (opts : Dither.DitherOptions) (s cells : Z) :
  Dither.animated opts = false ->
  (1 <= length (Dither.colors opts))%nat ->
  drawable opts ->
  loopCount (Dither.dotScalePx opts) = Ok s -> 0 < s ->
  loopCount (Dither.gridSize opts) = Ok cells ->
  thresholdFrame opts s cells.
Proof.
  intros Hstatic Hlen Hdraw Hs Hpos Hcells.
  destruct (renderDither_reads opts Hlen) as (c0 & cB & E0 & EB & Hrender).
  set (A := Dither.hexToRgb (oklchToHex c0)) in *.
  set (B := Dither.hexToRgb (oklchToHex cB)) in *.
  destruct (draw_complete opts false A B 0%num Hdraw)
    as (d0 & cells' & d & Hfill & Hpix0 & Hcells' & Hpaint & Htone & Hdrawn).
  rewrite Hcells in Hcells'. injection Hcells' as <-.
  set (n := Num.truncZ (Dither.sizePx opts)) in *.
  assert (Hlen0 : Z.of_nat (length d0) = 4 * (n * n)).
  { destruct Hdraw as (Hn & _). fold n in Hn.
    destruct (fillBackground_filled B n (replicate (Z.to_nat (n * n * 4)) 0))
      as (d0' & Hfill' & Hl & _); [rewrite length_replicate; nia|].
    rewrite Hfill in Hfill'. now injection Hfill' as <-. }
  pose proof (paintGrid_exact
                (Dither.frameValue (Dither.seeds opts) false (Dither.gridSize opts) 0%num)
                A n (Dither.dotScalePx opts) s cells d0 Hlen0 Hs Hpos) as Hexact.
  rewrite Hpaint in Hexact. cbn [holds] in Hexact. destruct Hexact as [Hsame Hpix].
  exists c0, cB, d. split; [exact E0|]. split; [exact EB|]. cbv zeta. fold A B n.
  split; [|split].
  - rewrite Hrender, Hstatic. cbn [negb]. now rewrite Hdrawn.
  - lia.
  - intros x y Hx Hy. assert (Hk : 0 <= y * n + x < n * n) by nia.
    destruct (Hpix0 _ Hk) as (B0 & B1 & B2 & B3).
    destruct (Hpix x y Hx Hy) as [[HQ (P0 & P1 & P2 & P3)]|[HQ Hkept]].
    + left. split; [exact HQ|]. unfold pixelIs. rewrite P0, P1, P2, P3. now repeat split.
    + right. split; [exact HQ|]. unfold pixelIs.
      pose proof (Hkept 0 ltac:(lia)) as K0. rewrite Z.add_0_r in K0.
      rewrite K0, !Hkept by lia. now repeat split.
Qed.

Lemma renderDither_threshold_witness :
  thresholdFrame (H := RefHost.host) (satoshi 6%num false) 2 5.
Proof.
  apply (renderDither_threshold (H := RefHost.host)).
  - reflexivity.
  - vm_compute. lia.
  - exact satoshi_drawable.
  - vm_compute. reflexivity.
  - lia.
  - vm_compute. reflexivity.
Defined.

(** ** The round trip through OKLCH *)

(** On the reference host the round trip is within 1 per channel at the 27
    sample colours. *)
Example roundTrip_samples :
  forallb (fun c => withinOne (roundTrip (H := RefHost.host) c) c) sampleColours = true.
Proof. vm_compute. reflexivity. Qed.
